(** * magic-rest: query-parameter interpretation and pagination

    A shallow embedding of [mgicrest/radhelper.go] (package [magicrest]):
    [ReadPaginated], [ReadPaginatedFromGin] and [PaginateGeneric].

    Conventions of the embedding.
    - A Go [string] is a sequence of bytes: Rocq's [string].
    - Go's [int] and [int64] are 64-bit two's complement integers: [Z] with
      the wrap-around written out ([GoInt.wrap64]).
    - [url.Values] is a [map[string][]string].  The filter loop ranges over
      it in an order the runtime picks, so a parameter set is given as the
      list of its entries in the order this run visits them; every theorem
      quantifies over that list, hence over every visiting order.
    - A Go map value is a reference.  [Options.DefaultFieldTypes] is a
      location (or nil) in a store of maps, so that writes through it are
      visible to whoever else holds the reference.
    - [*gorm.DB] is an opaque query builder: a handle is the sequence of
      builder calls made on it, and the engine behind [Count] and [Find] is
      a parameter of the development.
    - [strconv.Atoi], [strings.TrimSpace] and [uuid.Parse] are library
      functions outside the repository: parameters of the development. *)

From Stdlib Require Import ZArith Lia List String Ascii Bool.
From stdpp Require Import base gmap strings list.

Open Scope string_scope.
Open Scope list_scope.
Open Scope Z_scope.

(** ** Go's fixed-width integers *)

Module GoInt.

Definition minInt64 : Z := - 2 ^ 63.
Definition maxInt64 : Z := 2 ^ 63 - 1.

(** Reduction of a mathematical integer to the 64-bit signed range. *)
Definition wrap64 (z : Z) : Z := (z + 2 ^ 63) mod 2 ^ 64 - 2 ^ 63.

Definition in_range (z : Z) : Prop := minInt64 <= z <= maxInt64.

Definition add (a b : Z) : Z := wrap64 (a + b).
Definition sub (a b : Z) : Z := wrap64 (a - b).
Definition mul (a b : Z) : Z := wrap64 (a * b).
(** Go's [/] on integers truncates toward zero; the divisor is not zero
    (the caller models the panic of a division by zero). *)
Definition div (a b : Z) : Z := wrap64 (Z.quot a b).

End GoInt.

(** ** The functions of Go's [strings] package that the source calls *)

Module GoStrings.

Definition len (s : string) : Z := Z.of_nat (String.length s).

(** [s[lo:hi]]; [None] is the run-time panic on bounds out of range. *)
Definition slice (s : string) (lo hi : Z) : option string :=
  if (0 <=? lo) && (lo <=? hi) && (hi <=? len s)
  then Some (substring (Z.to_nat lo) (Z.to_nat (hi - lo)) s)
  else None.

Definition HasPrefix (s prefix : string) : bool :=
  (String.length prefix <=? String.length s)%nat
  && String.eqb (substring 0 (String.length prefix) s) prefix.

Definition HasSuffix (s suffix : string) : bool :=
  (String.length suffix <=? String.length s)%nat
  && String.eqb
       (substring (String.length s - String.length suffix)
                  (String.length suffix) s)
       suffix.

(** [strings.Contains(s, sep)] for a one-byte [sep]. *)
Fixpoint Contains (s : string) (sep : ascii) : bool :=
  match s with
  | EmptyString => false
  | String c s' => Ascii.eqb c sep || Contains s' sep
  end.

(** [strings.Split(s, sep)] for a one-byte [sep]: the pieces between the
    separators, in order; a string without separator is its own only
    piece. *)
Fixpoint Split (s : string) (sep : ascii) : list string :=
  match s with
  | EmptyString => [EmptyString]
  | String c s' =>
      if Ascii.eqb c sep then EmptyString :: Split s' sep
      else match Split s' sep with
           | [] => [String c EmptyString]
           | p :: ps => String c p :: ps
           end
  end.

Definition Join (elems : list string) (sep : string) : string :=
  String.concat sep elems.

End GoStrings.

Import GoStrings.

Definition comma : ascii := ","%char.
Definition dot : ascii := "."%char.

(** ** Instances of the library parameters

    Executable stand-ins for the three library functions, used to run the
    development on concrete requests.  The theorems below do not depend on
    them: they hold for every choice of the parameters. *)

Module GoLib.

Definition isDigit (c : ascii) : bool :=
  let n := nat_of_ascii c in (48 <=? n)%nat && (n <=? 57)%nat.

Definition isHex (c : ascii) : bool :=
  let n := nat_of_ascii c in
  isDigit c || ((65 <=? n)%nat && (n <=? 70)%nat)
            || ((97 <=? n)%nat && (n <=? 102)%nat).

Fixpoint digits (s : string) (acc : Z) : option Z :=
  match s with
  | EmptyString => Some acc
  | String c s' =>
      if isDigit c
      then digits s' (10 * acc + (Z.of_nat (nat_of_ascii c) - 48))
      else None
  end.

(** [strconv.Atoi] on a 64-bit platform: an optional sign, then one or more
    decimal digits, the value within the range of [int]. *)
Definition Atoi (s : string) : option Z :=
  match s with
  | EmptyString => None
  | String c s' =>
      let neg := Ascii.eqb c "-" in
      let body := if neg || Ascii.eqb c "+" then s' else s in
      match body with
      | EmptyString => None
      | _ =>
          match digits body 0 with
          | None => None
          | Some n =>
              let v := if neg then - n else n in
              if (GoInt.minInt64 <=? v) && (v <=? GoInt.maxInt64)
              then Some v else None
          end
      end
  end.

Definition isSpace (c : ascii) : bool :=
  let n := nat_of_ascii c in ((9 <=? n)%nat && (n <=? 13)%nat) || (n =? 32)%nat.

Fixpoint trimLeft (s : string) : string :=
  match s with
  | EmptyString => EmptyString
  | String c s' => if isSpace c then trimLeft s' else s
  end.

Fixpoint trimRight (s : string) : string :=
  match s with
  | EmptyString => EmptyString
  | String c s' =>
      match trimRight s' with
      | EmptyString => if isSpace c then EmptyString else String c EmptyString
      | t => String c t
      end
  end.

(** [strings.TrimSpace] on ASCII text. *)
Definition TrimSpace (s : string) : string := trimRight (trimLeft s).

Fixpoint uuidShape (s : string) (i : nat) : bool :=
  match s with
  | EmptyString => (i =? 36)%nat
  | String c s' =>
      (if (i =? 8)%nat || (i =? 13)%nat || (i =? 18)%nat || (i =? 23)%nat
       then Ascii.eqb c "-" else isHex c)
      && uuidShape s' (S i)
  end.

(** [uuid.Parse] succeeding, on the canonical 36-byte form
    xxxxxxxx-xxxx-xxxx-xxxx-xxxxxxxxxxxx. *)
Definition uuidParseOk (s : string) : bool := uuidShape s 0.

End GoLib.

(** ** Data model *)

(** The argument bound to the [?] of a condition: [interface{}] holding an
    [int], a [string], an [[]int] or a [[]string]. *)
Inductive Arg :=
| ArgInt (i : Z)
| ArgString (s : string)
| ArgInts (l : list Z)
| ArgStrings (l : list string).

(** One builder call on a [*gorm.DB]. *)
Inductive clause :=
| Where (query : string) (arg : Arg)
| Preload (relation : string)
| Select (expr : string)
| Group (expr : string)
| Order (expr : string)
| Limit (n : Z)
| Offset (n : Z).

(** A query handle: the builder calls made on it, oldest first. *)
Abbreviation DB := (list clause).

(** A query handed to the engine. *)
Inductive exec :=
| ExecCount (db : DB)
| ExecFind (db : DB).

(** The [pagination] map built by [PaginateGeneric]; its six keys are
    fixed, so it is a record. *)
Record Pagination := {
  page : Z;
  pageSize : Z;
  pageCount : Z;
  total : Z;
  hasNext : bool;
  hasPrev : bool
}.

(** [Result[T]]; [None] is Go's nil slice or nil map. *)
Record Result (T : Type) := {
  Data : option (list T);
  Meta : option (gmap string Pagination)
}.
Arguments Data {T} _.
Arguments Meta {T} _.

Inductive error (E : Type) :=
| ErrInvalidFilter
| EngineError (e : E).
Arguments ErrInvalidFilter {E}.
Arguments EngineError {E} e.

Inductive res (E A : Type) :=
| Ok (a : A)
| Err (e : E).
Arguments Ok {E A} a.
Arguments Err {E A} e.

(** A function either returns or panics. *)
Inductive outcome (A : Type) :=
| Returned (a : A)
| Panicked (msg : string).
Arguments Returned {A} a.
Arguments Panicked {A} msg.

(** Addresses of Go maps, and the store they live in. *)
Abbreviation loc := positive.
Abbreviation heap := (gmap loc (gmap string string)).

Record Options := {
  SearchField : string;
  OrderBy : string;
  PreloadFields : list string;
  DefaultFieldTypes : option loc;
  DefaultPage : Z;
  DefaultPageSize : Z;
  AllowGroupBy : bool
}.

(** [url.Values], as the entries of the map in visiting order. *)
Abbreviation Values := (list (string * list string)).

(** A real map has no key twice. *)
Definition wf_Values (query : Values) : Prop := NoDup (query.*1).

(** What a call does: the store it leaves, the queries it handed to the
    engine, and how it ended. *)
Record run (A : Type) := {
  heap_after : heap;
  issued : list exec;
  result : outcome A
}.
Arguments heap_after {A} _.
Arguments issued {A} _.
Arguments result {A} _.
Arguments Build_run {A} _ _ _.

(** ** A sample deployment

    An engine with a table of 48 rows, options in the manner of the README,
    and a few requests, for running the development. *)

Module Sample.

Definition Count (db : DB) : res string Z := Ok 48.

Definition Find (db : DB) : res string (option (list string)) :=
  Ok (Some ["keyboard"; "mouse"]).

(** Options with a nil [DefaultFieldTypes]. *)
Definition plainOptions : Options :=
  {| SearchField := "name";
     OrderBy := "";
     PreloadFields := ["Kategori"];
     DefaultFieldTypes := None;
     DefaultPage := 0;
     DefaultPageSize := 0;
     AllowGroupBy := true |}.

(** The built-in registry of lines 66-71, as a map. *)
Definition types : gmap string string :=
  list_to_map
    [("id", "uuid"); ("status", "string"); ("jumlah", "int");
     ("gudang_id", "uuid")].

(** [?page=2&filter[status]=active&filter[jumlah]=1, x,3] *)
Definition badFilterQuery : Values :=
  [("page", ["2"]); ("filter[status]", ["active"]);
   ("filter[jumlah]", ["1, x,3"])].

(** A parameter set built by hand, with a key that has no value. *)
Definition emptyValueQuery : Values :=
  [("page", ["2"]); ("filter[status]", [])].

(** [?groupby=category_id] *)
Definition groupQuery : Values := [("groupby", ["category_id"])].

(** [?preload=TypeBarang, Kategori&order=name asc] *)
Definition preloadQuery : Values :=
  [("preload", ["TypeBarang, Kategori"]); ("order", ["name asc"])].

(** [?pageSize=9223372036854775807] *)
Definition hugePageSizeQuery : Values :=
  [("pageSize", ["9223372036854775807"])].

(** [?page=abc&pageSize=-5] *)
Definition badWindowQuery : Values :=
  [("page", ["abc"]); ("pageSize", ["-5"])].

(** [?page=2&pageSize=5] *)
Definition pageTwoQuery : Values := [("page", ["2"]); ("pageSize", ["5"])].

(** [?filter[jumlah]=1, 2,3&filter[status]=active] *)
Definition validFilterQuery : Values :=
  [("filter[jumlah]", ["1, 2,3"]); ("filter[status]", ["active"])].

(** A parameter set built by hand: a filter value that is no integer, and
    a filter key that has no value. *)
Definition panicFilterQuery : Values :=
  [("filter[jumlah]", ["x"]); ("filter[status]", [])].

End Sample.

(** ** A deployment whose engine fails *)

Module Outage.

(** The count fails. *)
Definition Count (db : DB) : res string Z := Err "connection refused".

(** The fetch fails after a count of 48 rows. *)
Definition Find (db : DB) : res string (option (list string)) :=
  Err "relation does not exist".

(** The options of the README example, their field types in the map at
    address 1. *)
Definition readmeTypes : gmap string string :=
  {[ "id" := "uuid"; "status" := "string" ]}.

Definition readmeStore : heap := {[ 1%positive := readmeTypes ]}.

Definition readmeOptions : Options :=
  {| SearchField := "name";
     OrderBy := "created_at desc";
     PreloadFields := [];
     DefaultFieldTypes := Some 1%positive;
     DefaultPage := 0;
     DefaultPageSize := 0;
     AllowGroupBy := true |}.

(** Options that neither search nor group. *)
Definition bareOptions : Options :=
  {| SearchField := "";
     OrderBy := "";
     PreloadFields := [];
     DefaultFieldTypes := None;
     DefaultPage := 0;
     DefaultPageSize := 0;
     AllowGroupBy := false |}.

(** [?search=key&groupby=category_id&utm_source=mail&filter[status]=active],
    the status given twice. *)
Definition busyQuery : Values :=
  [("search", ["key"]); ("groupby", ["category_id"]);
   ("utm_source", ["mail"]); ("filter[status]", ["active"; "archived"])].

(** [?filter[status]=active] *)
Definition statusQuery : Values := [("filter[status]", ["active"])].

End Outage.

(** ** The source functions *)

Section ReadHelper.

(** The row type [T], the engine's error type, and the engine: what
    [Count] and [Find] answer for a query handle. *)
Context {T E : Type}.
Variable Count : DB -> res E Z.
Variable Find : DB -> res E (option (list T)).

(** The library functions: [strconv.Atoi] ([None] when [err != nil]),
    [strings.TrimSpace], and whether [uuid.Parse] returns a nil error. *)
Variable Atoi : string -> option Z.
Variable TrimSpace : string -> string.
Variable uuidParseOk : string -> bool.

(** [Values.Get]: the first value under [key], or the empty string. *)
Fixpoint lookupKey (query : Values) (key : string) : option (list string) :=
  match query with
  | [] => None
  | (k, vs) :: rest => if String.eqb k key then Some vs else lookupKey rest key
  end.

Definition Get (query : Values) (key : string) : string :=
  match lookupKey query key with
  | Some (v :: _) => v
  | _ => ""
  end.

(** Lines 42-60: the page window. *)
Definition resolvePage (query : Values) (opts : Options) : Z :=
  let page := DefaultPage opts in
  let page := if page <=? 0 then 1 else page in
  let p := Get query "page" in
  if negb (String.eqb p "")
  then match Atoi p with
       | Some pi => if 0 <? pi then pi else page
       | None => page
       end
  else page.

Definition resolvePageSize (query : Values) (opts : Options) : Z :=
  let pageSize := DefaultPageSize opts in
  let pageSize := if pageSize <=? 0 then 10 else pageSize in
  let ps := Get query "pageSize" in
  if negb (String.eqb ps "")
  then match Atoi ps with
       | Some psi => if 0 <? psi then psi else pageSize
       | None => pageSize
       end
  else pageSize.

(** Lines 66-71. *)
Definition defaultAllowed : list (string * string) :=
  [("id", "uuid"); ("status", "string"); ("jumlah", "int");
   ("gudang_id", "uuid")].

(** One round of the loop of lines 76-80, writing through the reference
    [l]. *)
Definition mergeOne (l : loc) (h : heap) (kv : string * string) : heap :=
  let m := default ∅ (h !! l) in
  match m !! kv.1 with
  | Some _ => h
  | None => <[l := <[kv.1 := kv.2]> m]> h
  end.

(** Lines 66-81: the store after the merge, and the map that
    [opts.DefaultFieldTypes] refers to from then on.  The literal
    [defaultAllowed] is a newly allocated map in either branch. *)
Definition mergeDefaults (h : heap) (opts : Options) : heap * loc :=
  let d := fresh (dom h) in
  let h1 := <[d := list_to_map defaultAllowed]> h in
  match DefaultFieldTypes opts with
  | None => (h1, d)
  | Some l => (foldl (mergeOne l) h1 defaultAllowed, l)
  end.

(** Lines 101-108: the valid integers of [parts], in order. *)
Fixpoint collectInts (parts : list string) (ints : list Z) (invalid : bool)
  : list Z * bool :=
  match parts with
  | [] => (ints, invalid)
  | v :: rest =>
      match Atoi v with
      | None => collectInts rest ints true
      | Some iv => collectInts rest (ints ++ [iv]) invalid
      end
  end.

(** Lines 114-120. *)
Fixpoint collectUUIDs (parts : list string) (uuids : list string)
  (invalid : bool) : list string * bool :=
  match parts with
  | [] => (uuids, invalid)
  | v :: rest =>
      if uuidParseOk v
      then collectUUIDs rest (uuids ++ [v]) invalid
      else collectUUIDs rest uuids true
  end.

(** Lines 85-146: the body of the filter loop for one entry, on the pair of
    the handle and [invalidFilter]. *)
Definition filterStep (types : gmap string string) (st : DB * bool)
  (kv : string * list string) : outcome (DB * bool) :=
  let '(db, invalidFilter) := st in
  let '(key, vals) := kv in
  if HasPrefix key "filter[" && HasSuffix key "]" then
    match slice key 7 (len key - 1) with
    | None => Panicked "slice bounds out of range"
    | Some field =>
        if String.eqb field "" then Returned (db, invalidFilter)
        else
          match vals with
          | [] => Panicked "index out of range [0] with length 0"
          | value :: _ =>
              let fieldType := default "" (types !! field) in
              if Contains value comma then
                let parts := map TrimSpace (Split value comma) in
                if String.eqb fieldType "int" then
                  let '(ints, invalidFilter) :=
                    collectInts parts [] invalidFilter in
                  match ints with
                  | [] => Returned (db, invalidFilter)
                  | _ => Returned (db ++ [Where (field +:+ " IN ?") (ArgInts ints)],
                                   invalidFilter)
                  end
                else if String.eqb fieldType "uuid" then
                  let '(uuids, invalidFilter) :=
                    collectUUIDs parts [] invalidFilter in
                  match uuids with
                  | [] => Returned (db, invalidFilter)
                  | _ => Returned (db ++ [Where (field +:+ " IN ?") (ArgStrings uuids)],
                                   invalidFilter)
                  end
                else
                  Returned (db ++ [Where (field +:+ " IN ?") (ArgStrings parts)],
                            invalidFilter)
              else
                if String.eqb fieldType "int" then
                  match Atoi value with
                  | None => Returned (db, true)
                  | Some iv =>
                      Returned (db ++ [Where (field +:+ " = ?") (ArgInt iv)],
                                invalidFilter)
                  end
                else if String.eqb fieldType "uuid" then
                  if uuidParseOk value
                  then Returned (db ++ [Where (field +:+ " = ?") (ArgString value)],
                                 invalidFilter)
                  else Returned (db, true)
                else
                  Returned (db ++ [Where (field +:+ " = ?") (ArgString value)],
                            invalidFilter)
          end
    end
  else Returned (db, invalidFilter).

(** Lines 84-147: the loop over the entries. *)
Fixpoint filterLoop (types : gmap string string) (query : Values)
  (st : DB * bool) : outcome (DB * bool) :=
  match query with
  | [] => Returned st
  | kv :: rest =>
      match filterStep types st kv with
      | Panicked msg => Panicked msg
      | Returned st' => filterLoop types rest st'
      end
  end.

(** Lines 154-165. *)
Definition applyPreload (query : Values) (opts : Options) (db : DB) : DB :=
  let preloadQuery := Get query "preload" in
  if negb (String.eqb preloadQuery "") then
    foldl (fun db f =>
             let f := TrimSpace f in
             if negb (String.eqb f "") then db ++ [Preload f] else db)
          db (Split preloadQuery comma)
  else
    foldl (fun db f => db ++ [Preload f]) db (PreloadFields opts).

(** Lines 168-182. *)
Definition applySearch (opts : Options) (search : string) (db : DB) : DB :=
  if negb (String.eqb (SearchField opts) "") && negb (String.eqb search "")
  then
    if Contains (SearchField opts) dot then
      match Split (SearchField opts) dot with
      | [relation; field] =>
          db ++ [Where (relation +:+ "." +:+ field +:+ " ILIKE ?")
                       (ArgString ("%" +:+ search +:+ "%"))]
      | _ =>
          db ++ [Where (SearchField opts +:+ " ILIKE ?")
                       (ArgString ("%" +:+ search +:+ "%"))]
      end
    else
      db ++ [Where (SearchField opts +:+ " ILIKE ?")
                   (ArgString ("%" +:+ search +:+ "%"))]
  else db.

(** Lines 185-196. *)
Definition applyGroupBy (query : Values) (opts : Options) (db : DB) : DB :=
  if AllowGroupBy opts then
    let gq := Get query "groupby" in
    if negb (String.eqb gq "") then
      let fields := map TrimSpace (Split gq comma) in
      let groupExpr := Join fields ", " in
      db ++ [Select (groupExpr +:+ ", MAX(created_at) as created_at");
             Group groupExpr;
             Order "MAX(created_at) desc"]
    else db
  else db.

(** Lines 199-207. *)
Definition applyOrder (query : Values) (opts : Options) (db : DB) : DB :=
  let orderBy := OrderBy opts in
  let qOrder := Get query "order" in
  let orderBy := if negb (String.eqb qOrder "") then qOrder else orderBy in
  if negb (String.eqb orderBy "")
  then db ++ [Order orderBy]
  else db ++ [Order "created_at desc"].

(** Lines 247-255: the pagination map from the row count and the page
    window, in Go's 64-bit arithmetic.  The division of line 247 panics on
    a zero [pageSize]. *)
Definition paginationMeta (total page pageSize : Z) : outcome Pagination :=
  if pageSize =? 0 then Panicked "integer divide by zero"
  else
    let totalPages :=
      GoInt.div (GoInt.sub (GoInt.add total pageSize) 1) pageSize in
    Returned {| page := page;
                pageSize := pageSize;
                pageCount := totalPages;
                total := total;
                hasNext := page <? totalPages;
                hasPrev := (1 <? page) && (0 <? totalPages) |}.

(** Lines 230-259.  The session copy [countDB] carries the clauses of [db];
    [modelPtr] is not used. *)
Definition PaginateGeneric (db : DB) (modelPtr : option T)
  (page pageSize : Z)
  : list exec * outcome (res E (option (list T) * Pagination)) :=
  match Count db with
  | Err e => ([ExecCount db], Returned (Err e))
  | Ok total =>
      let offset := GoInt.mul (GoInt.sub page 1) pageSize in
      let findDB := db ++ [Limit pageSize; Offset offset] in
      match Find findDB with
      | Err e => ([ExecCount db; ExecFind findDB], Returned (Err e))
      | Ok out =>
          ([ExecCount db; ExecFind findDB],
           match paginationMeta total page pageSize with
           | Panicked msg => Panicked msg
           | Returned pagination => Returned (Ok (out, pagination))
           end)
      end
  end.

(** Lines 153-207: everything between the filters and the paginator. *)
Definition compose (query : Values) (opts : Options) (db : DB) : DB :=
  applyOrder query opts
    (applyGroupBy query opts
       (applySearch opts (Get query "search")
          (applyPreload query opts db))).

(** Lines 40-219. *)
Definition ReadPaginated (h : heap) (query : Values) (db : DB)
  (modelPtr : option T) (opts : Options)
  : run (Result T * option (error E)) :=
  let page := resolvePage query opts in
  let pageSize := resolvePageSize query opts in
  let '(h1, types) := mergeDefaults h opts in
  match filterLoop (default ∅ (h1 !! types)) query (db, false) with
  | Panicked msg => Build_run h1 [] (Panicked msg)
  | Returned (db1, invalidFilter) =>
      if invalidFilter then
        Build_run h1 []
          (Returned ({| Data := Some []; Meta := Some ∅ |},
                     Some ErrInvalidFilter))
      else
        match PaginateGeneric (compose query opts db1) modelPtr page pageSize
        with
        | (ex, Panicked msg) => Build_run h1 ex (Panicked msg)
        | (ex, Returned (Err e)) =>
            Build_run h1 ex
              (Returned ({| Data := None; Meta := None |},
                         Some (EngineError e)))
        | (ex, Returned (Ok (data, pagination))) =>
            Build_run h1 ex
              (Returned ({| Data := data;
                            Meta := Some {[ "pagination" := pagination ]} |},
                         None))
        end
  end.

(** Lines 223-225. *)
Definition ReadPaginatedFromGin (h : heap) (ctxQuery : Values) (db : DB)
  (modelPtr : option T) (opts : Options)
  : run (Result T * option (error E)) :=
  ReadPaginated h ctxQuery db modelPtr opts.

(** ** Vocabulary of the statements *)

(** The key [filter[<field>]]. *)
Definition filterKey (field : string) : string := "filter[" +:+ field +:+ "]".

(** The registry [opts.DefaultFieldTypes] that the loop reads, after the
    merge. *)
Definition effectiveTypes (h : heap) (opts : Options) : gmap string string :=
  default ∅ ((mergeDefaults h opts).1 !! (mergeDefaults h opts).2).

(** The type tag declared for a field: [opts.DefaultFieldTypes[field]]. *)
Definition declaredType (types : gmap string string) (field : string)
  : string :=
  default "" (types !! field).

(** The values a filter value stands for: its trimmed pieces when it holds
    a comma, itself otherwise. *)
Definition filterParts (value : string) : list string :=
  if Contains value comma then map TrimSpace (Split value comma)
  else [value].

(** A part that the coercion for the tag [ty] rejects. *)
Definition failsCoercion (ty part : string) : Prop :=
  (ty = "int" /\ Atoi part = None)
  \/ (ty = "uuid" /\ uuidParseOk part = false).

(** The message of the panic of line 90. *)
Definition indexPanic : string := "index out of range [0] with length 0".

(** Every key of the parameter set carries at least one value, as in a set
    parsed from a query string. *)
Definition allHaveValue (query : Values) : Prop :=
  forall key vals, In (key, vals) query -> vals <> [].

(** The relations a handle asks to preload, the order expressions it
    carries, and the clauses that follow its last [Group]. *)
Definition preloads (db : DB) : list string :=
  flat_map (fun c => match c with Preload r => [r] | _ => [] end) db.

Definition orders (db : DB) : list string :=
  flat_map (fun c => match c with Order e => [e] | _ => [] end) db.

Definition isWhere (c : clause) : Prop := exists q a, c = Where q a.

Definition isGroup (c : clause) : bool :=
  match c with Group _ => true | _ => false end.

Fixpoint afterGroup (db : DB) : DB :=
  match db with
  | [] => []
  | c :: rest =>
      if existsb isGroup rest then afterGroup rest
      else if isGroup c then rest else []
  end.

(** The names among the pieces of a comma-separated list: the trimmed
    pieces that are not empty. *)
Definition namesOf (param : string) : list string :=
  List.filter (fun f => negb (String.eqb f ""))
              (map TrimSpace (Split param comma)).

(** The group-by path has the last word on the ordering of a handle: past
    its last [Group], the only order is the one on the max-aggregate. *)
Definition groupOrderOverrides (db : DB) : Prop :=
  orders (afterGroup db) = ["MAX(created_at) desc"].

(** The handle of a query handed to the engine. *)
Definition handle (x : exec) : DB :=
  match x with ExecCount db => db | ExecFind db => db end.

(** The parameter set without the entries under [key]. *)
Definition dropKey (key : string) (query : Values) : Values :=
  List.filter (fun kv => negb (String.eqb kv.1 key)) query.

(** A raw [page] or [pageSize] that is not a positive integer: not a
    number at all, or a number that is not above zero. *)
Definition notPositiveInt (p : string) : Prop :=
  Atoi p = None \/ exists n, Atoi p = Some n /\ n <= 0.

(** The defaults the window falls back to: the configured ones when
    positive, else 1 and 10. *)
Definition defaultPage (opts : Options) : Z :=
  if 0 <? DefaultPage opts then DefaultPage opts else 1.

Definition defaultPageSize (opts : Options) : Z :=
  if 0 <? DefaultPageSize opts then DefaultPageSize opts else 10.

(** The least number of pages of [pageSize] rows that hold [total] rows,
    over the mathematical integers. *)
Definition ceilDiv (total pageSize : Z) : Z := - ((- total) / pageSize).

(** The order expression of the order-by step, in the words of the
    specification: the [order] parameter, else the configured default,
    else the fixed one. *)
Definition orderExpr (query : Values) (opts : Options) : string :=
  if String.eqb (Get query "order") "" then
    if String.eqb (OrderBy opts) "" then "created_at desc" else OrderBy opts
  else Get query "order".

(** The parameter set with every value list cut down to its first value. *)
Definition firstValues (query : Values) : Values :=
  map (fun kv => (kv.1, take 1 kv.2)) query.

(** A key that the filter loop takes up. *)
Definition isFilterKey (key : string) : bool :=
  HasPrefix key "filter[" && HasSuffix key "]".

(** Two ends of the filter loop that differ by the order of the visit
    only: the same panic, or the same flag and the same clauses on the
    handle up to their order. *)
Definition sameUpToOrder (o1 o2 : outcome (DB * bool)) : Prop :=
  match o1, o2 with
  | Returned st1, Returned st2 => st1.2 = st2.2 /\ Permutation st1.1 st2.1
  | Panicked m1, Panicked m2 => m1 = m2
  | _, _ => False
  end.

(** A clause of the page window. *)
Definition isWindow (c : clause) : bool :=
  match c with Limit _ | Offset _ => true | _ => false end.

(** The condition of the search step. *)
Definition searchCondition (opts : Options) (search : string) : clause :=
  Where (SearchField opts +:+ " ILIKE ?") (ArgString ("%" +:+ search +:+ "%")).

(** No key [filter[<field>]] with a field between the brackets comes with
    an empty value list. *)
Definition noEmptyFilter (query : Values) : Prop :=
  forall field, field <> "" -> ~ In (filterKey field, []) query.

(** No part of a filter value fails the coercion of its field's type. *)
Definition allPartsValid (types : gmap string string) (query : Values)
  : Prop :=
  forall field value rest part,
    field <> "" ->
    In (filterKey field, value :: rest) query ->
    In part (filterParts value) ->
    ~ failsCoercion (declaredType types field) part.

(** A request whose filters pass: none that makes the loop panic, none
    that raises [invalidFilter]. *)
Definition filtersPass (h : heap) (opts : Options) (query : Values) : Prop :=
  noEmptyFilter query /\ allPartsValid (effectiveTypes h opts) query.

(** The order the group path puts on the handle, when it runs. *)
Definition groupOrders (query : Values) (opts : Options) : list string :=
  if AllowGroupBy opts && negb (String.eqb (Get query "groupby") "")
  then ["MAX(created_at) desc"] else [].

(** [cond] is the condition the call makes of the entry [kv]: the loop
    body appends it to the handle whatever the state it runs from; the loop
    ends with it on the handle; and a call whose filters pass runs the
    count on the composed handle over the one of the loop, with [cond] on
    every query it hands to the engine. *)
Definition conditionOfEntry (h : heap) (query : Values) (db : DB)
  (modelPtr : option T) (opts : Options) (kv : string * list string)
  (cond : clause) : Prop :=
  (forall db0 inv,
     filterStep (effectiveTypes h opts) (db0, inv) kv
     = Returned (db0 ++ [cond], inv))
  /\ (forall db1 inv,
        filterLoop (effectiveTypes h opts) query (db, false)
        = Returned (db1, inv) ->
        In cond db1)
  /\ (filtersPass h opts query ->
      exists db1 more,
        filterLoop (effectiveTypes h opts) query (db, false)
        = Returned (db1, false)
        /\ In cond db1
        /\ issued (ReadPaginated h query db modelPtr opts)
           = ExecCount (compose query opts db1) :: more
        /\ forall x,
             In x (issued (ReadPaginated h query db modelPtr opts)) ->
             In cond (handle x)).

(** ** Strings *)

Lemma length_append (s t : string) :
  String.length (s +:+ t) = (String.length s + String.length t)%nat.
Proof. induction s as [|c s IH]; simpl; [reflexivity | now rewrite IH]. Qed.

Lemma substring_all (s : string) : substring 0 (String.length s) s = s.
Proof. induction s as [|c s IH]; simpl; [reflexivity | now rewrite IH]. Qed.

Lemma substring_prefix (s t : string) :
  substring 0 (String.length s) (s +:+ t) = s.
Proof.
  induction s as [|c s IH]; simpl.
  - now destruct t.
  - now rewrite IH.
Qed.

Lemma substring_skip (s t : string) (m : nat) :
  substring (String.length s) m (s +:+ t) = substring 0 m t.
Proof. induction s as [|c s IH]; simpl; [reflexivity | exact IH]. Qed.

Lemma HasSuffix_append (s suffix : string) :
  HasSuffix (s +:+ suffix) suffix = true.
Proof.
  unfold HasSuffix. rewrite length_append.
  replace (String.length s + String.length suffix - String.length suffix)%nat
    with (String.length s) by lia.
  rewrite substring_skip, substring_all, String.eqb_refl.
  rewrite andb_true_r. apply Nat.leb_le. lia.
Qed.

Lemma HasPrefix_append (prefix t : string) :
  HasPrefix (prefix +:+ t) prefix = true.
Proof.
  unfold HasPrefix. rewrite length_append, substring_prefix, String.eqb_refl.
  rewrite andb_true_r. apply Nat.leb_le. lia.
Qed.

Lemma filterKey_prefix (field : string) :
  HasPrefix (filterKey field) "filter[" = true.
Proof. apply HasPrefix_append. Qed.

Lemma append_assoc (s t u : string) : (s +:+ t) +:+ u = s +:+ t +:+ u.
Proof.
  induction s as [|c s IH]; [reflexivity |].
  change (String c ((s +:+ t) +:+ u) = String c (s +:+ t +:+ u)).
  now rewrite IH.
Qed.

Lemma filterKey_suffix (field : string) :
  HasSuffix (filterKey field) "]" = true.
Proof.
  unfold filterKey. rewrite <- append_assoc. apply HasSuffix_append.
Qed.

Lemma filterKey_len (field : string) :
  len (filterKey field) = 7 + len field + 1.
Proof.
  unfold len, filterKey. rewrite !length_append.
  change (String.length "filter[") with 7%nat.
  change (String.length "]") with 1%nat. lia.
Qed.

Lemma filterKey_slice (field : string) :
  slice (filterKey field) 7 (len (filterKey field) - 1) = Some field.
Proof.
  unfold slice. rewrite filterKey_len.
  assert (0 <= len field) by (unfold len; lia).
  replace ((0 <=? 7) && (7 <=? 7 + len field + 1 - 1)
           && (7 + len field + 1 - 1 <=? 7 + len field + 1)) with true
    by (symmetry; rewrite !andb_true_iff; repeat split; apply Z.leb_le; lia).
  f_equal.
  replace (Z.to_nat (7 + len field + 1 - 1 - 7)) with (String.length field)
    by (unfold len; lia).
  change (Z.to_nat 7) with (String.length "filter[").
  unfold filterKey. rewrite substring_skip. apply substring_prefix.
Qed.

(** Whenever both tests of line 85 pass, the slice of line 86 is within
    bounds. *)
Lemma slice_in_bounds (key : string) :
  HasPrefix key "filter[" = true -> HasSuffix key "]" = true ->
  exists field, slice key 7 (len key - 1) = Some field.
Proof.
  intros Hp Hs.
  assert (8 <= len key) as Hlen.
  { unfold HasPrefix in Hp. apply andb_true_iff in Hp as [Hl Hp].
    apply Nat.leb_le in Hl. apply String.eqb_eq in Hp.
    change (String.length "filter[") with 7%nat in *.
    destruct (Nat.eq_dec (String.length key) 7%nat) as [E7|].
    - rewrite <- E7, substring_all in Hp. subst key. discriminate Hs.
    - unfold len. lia. }
  unfold slice.
  replace ((0 <=? 7) && (7 <=? len key - 1) && (len key - 1 <=? len key))
    with true
    by (symmetry; rewrite !andb_true_iff; repeat split; apply Z.leb_le; lia).
  eauto.
Qed.

Lemma Split_nonempty (s : string) (sep : ascii) : Split s sep <> [].
Proof.
  destruct s as [|c s]; simpl; [discriminate |].
  destruct (Ascii.eqb c sep); [discriminate |].
  destruct (Split s sep); discriminate.
Qed.

(** ** The page window is positive *)

Lemma resolvePage_lower (query : Values) (opts : Options) :
  1 <= resolvePage query opts.
Proof.
  unfold resolvePage.
  repeat case_match;
    repeat match goal with
      | H : (_ <=? _) = _ |- _ => first [apply Z.leb_le in H | apply Z.leb_gt in H]
      | H : (_ <? _) = _ |- _ => first [apply Z.ltb_lt in H | apply Z.ltb_ge in H]
      end; lia.
Qed.

Lemma resolvePageSize_lower (query : Values) (opts : Options) :
  1 <= resolvePageSize query opts.
Proof.
  unfold resolvePageSize.
  repeat case_match;
    repeat match goal with
      | H : (_ <=? _) = _ |- _ => first [apply Z.leb_le in H | apply Z.leb_gt in H]
      | H : (_ <? _) = _ |- _ => first [apply Z.ltb_lt in H | apply Z.ltb_ge in H]
      end; lia.
Qed.

(** With a page size other than zero, [PaginateGeneric] returns. *)
Lemma PaginateGeneric_returns (db : DB) (modelPtr : option T)
  (page pageSize : Z) :
  pageSize <> 0 ->
  exists ex r, PaginateGeneric db modelPtr page pageSize = (ex, Returned r).
Proof.
  intros Hp. unfold PaginateGeneric, paginationMeta.
  rewrite (proj2 (Z.eqb_neq pageSize 0) Hp).
  destruct (Count db); [|eauto].
  destruct (Find _); eauto.
Qed.

(** ** The filter loop *)

Lemma collectInts_valid (parts : list string) (ints acc : list Z)
  (inv : bool) :
  Forall2 (fun p i => Atoi p = Some i) parts ints ->
  collectInts parts acc inv = (acc ++ ints, inv).
Proof.
  intros HF. revert acc.
  induction HF as [|p i parts ints Hp _ IH]; intros acc; simpl.
  - now rewrite app_nil_r.
  - rewrite Hp, IH, <- app_assoc. reflexivity.
Qed.

Lemma collectInts_sticky (parts : list string) (acc : list Z) :
  (collectInts parts acc true).2 = true.
Proof.
  revert acc. induction parts as [|p parts IH]; intros acc; simpl;
    [reflexivity |].
  destruct (Atoi p); apply IH.
Qed.

Lemma collectInts_invalid (parts : list string) (acc : list Z) (inv : bool)
  (part : string) :
  In part parts -> Atoi part = None ->
  (collectInts parts acc inv).2 = true.
Proof.
  revert acc inv. induction parts as [|p parts IH]; intros acc inv Hin Hbad;
    simpl in *; [contradiction |].
  destruct Hin as [-> | Hin].
  - rewrite Hbad. apply collectInts_sticky.
  - destruct (Atoi p); eapply IH; eauto.
Qed.

Lemma collectUUIDs_valid (parts acc : list string) (inv : bool) :
  Forall (fun p => uuidParseOk p = true) parts ->
  collectUUIDs parts acc inv = (acc ++ parts, inv).
Proof.
  intros HF. revert acc.
  induction HF as [|p parts Hp _ IH]; intros acc; simpl.
  - now rewrite app_nil_r.
  - rewrite Hp, IH, <- app_assoc. reflexivity.
Qed.

Lemma collectUUIDs_sticky (parts acc : list string) :
  (collectUUIDs parts acc true).2 = true.
Proof.
  revert acc. induction parts as [|p parts IH]; intros acc; simpl;
    [reflexivity |].
  destruct (uuidParseOk p); apply IH.
Qed.

Lemma collectUUIDs_invalid (parts acc : list string) (inv : bool)
  (part : string) :
  In part parts -> uuidParseOk part = false ->
  (collectUUIDs parts acc inv).2 = true.
Proof.
  revert acc inv. induction parts as [|p parts IH]; intros acc inv Hin Hbad;
    simpl in *; [contradiction |].
  destruct Hin as [-> | Hin].
  - rewrite Hbad. apply collectUUIDs_sticky.
  - destruct (uuidParseOk p); eapply IH; eauto.
Qed.

(** Entering the body of the loop on a key [filter[<field>]] with a
    non-empty field. *)
Ltac enter_filter Hfield :=
  unfold filterStep;
  rewrite filterKey_prefix, filterKey_suffix, filterKey_slice;
  cbn [andb];
  rewrite (proj2 (String.eqb_neq _ _) Hfield).

(** The only panic of the loop body is the index of line 90, and it needs an
    empty value list. *)
Lemma filterStep_panic (types : gmap string string) (st : DB * bool)
  (key : string) (vals : list string) (msg : string) :
  filterStep types st (key, vals) = Panicked msg ->
  vals = [] /\ msg = indexPanic.
Proof.
  destruct st as [db inv]. unfold filterStep.
  destruct (HasPrefix key "filter[") eqn:Hp; [|discriminate].
  destruct (HasSuffix key "]") eqn:Hs; [|discriminate].
  destruct (slice_in_bounds key Hp Hs) as [field ->]. cbn [andb].
  destruct (String.eqb field ""); [discriminate |].
  destruct vals as [|value rest].
  - intros [= <-]. split; reflexivity.
  - intros H. exfalso. revert H.
    repeat case_match; discriminate.
Qed.

Lemma filterStep_returns (types : gmap string string) (st : DB * bool)
  (key : string) (vals : list string) :
  vals <> [] -> exists st', filterStep types st (key, vals) = Returned st'.
Proof.
  intros Hne.
  destruct (filterStep types st (key, vals)) as [st'|msg] eqn:Hstep; eauto.
  apply filterStep_panic in Hstep as [-> _]. contradiction.
Qed.

Lemma filterStep_empty_values (types : gmap string string) (st : DB * bool)
  (field : string) :
  field <> "" ->
  filterStep types st (filterKey field, []) = Panicked indexPanic.
Proof.
  intros Hfield. destruct st as [db inv]. enter_filter Hfield. reflexivity.
Qed.

(** [invalidFilter] is never reset. *)
Lemma filterStep_sticky (types : gmap string string) (db db' : DB)
  (inv' : bool) (kv : string * list string) :
  filterStep types (db, true) kv = Returned (db', inv') -> inv' = true.
Proof.
  destruct kv as [key vals]. unfold filterStep.
  repeat case_match; intros [= <- <-]; try reflexivity.
  - match goal with
    | H : collectInts ?p ?a true = (_, ?b) |- _ =>
        pose proof (collectInts_sticky p a) as Hs; rewrite H in Hs; exact Hs
    end.
  - match goal with
    | H : collectInts ?p ?a true = (_, ?b) |- _ =>
        pose proof (collectInts_sticky p a) as Hs; rewrite H in Hs; exact Hs
    end.
  - match goal with
    | H : collectUUIDs ?p ?a true = (_, ?b) |- _ =>
        pose proof (collectUUIDs_sticky p a) as Hs; rewrite H in Hs; exact Hs
    end.
  - match goal with
    | H : collectUUIDs ?p ?a true = (_, ?b) |- _ =>
        pose proof (collectUUIDs_sticky p a) as Hs; rewrite H in Hs; exact Hs
    end.
Qed.

(** A part that fails its coercion raises [invalidFilter]. *)
Lemma filterStep_invalid (types : gmap string string) (db : DB) (inv : bool)
  (field value part : string) (rest : list string) :
  field <> "" ->
  In part (filterParts value) ->
  failsCoercion (declaredType types field) part ->
  exists db',
    filterStep types (db, inv) (filterKey field, value :: rest)
    = Returned (db', true).
Proof.
  intros Hfield Hin Hbad. enter_filter Hfield.
  unfold filterParts in Hin. unfold declaredType in Hbad.
  destruct (Contains value comma).
  - destruct Hbad as [[-> Hbad] | [-> Hbad]]; cbn [String.eqb Ascii.eqb Bool.eqb].
    + pose proof (collectInts_invalid _ [] inv _ Hin Hbad) as Hflag.
      destruct (collectInts _ [] inv) as [ints inv']. simpl in Hflag.
      subst inv'. destruct ints; eauto.
    + pose proof (collectUUIDs_invalid _ [] inv _ Hin Hbad) as Hflag.
      destruct (collectUUIDs _ [] inv) as [uuids inv']. simpl in Hflag.
      subst inv'. destruct uuids; eauto.
  - destruct Hin as [<- | []].
    destruct Hbad as [[-> Hbad] | [-> Hbad]]; cbn [String.eqb Ascii.eqb Bool.eqb];
      rewrite Hbad; eauto.
Qed.

Lemma filterLoop_total (types : gmap string string) (query : Values)
  (st : DB * bool) :
  allHaveValue query -> exists st', filterLoop types query st = Returned st'.
Proof.
  revert st. induction query as [|[key vals] query IH]; intros st Hall;
    cbn [filterLoop]; [eauto |].
  destruct (filterStep_returns types st key vals) as [st1 ->].
  { apply (Hall key). now left. }
  apply IH. intros k vs Hin. apply (Hall k). now right.
Qed.

Lemma filterLoop_sticky (types : gmap string string) (query : Values)
  (db db' : DB) (inv' : bool) :
  filterLoop types query (db, true) = Returned (db', inv') -> inv' = true.
Proof.
  revert db. induction query as [|kv query IH]; intros db;
    cbn [filterLoop].
  - now intros [= <- <-].
  - destruct (filterStep types (db, true) kv) as [[db1 inv1]|] eqn:Hstep;
      [|intros ?; discriminate].
    apply filterStep_sticky in Hstep as ->. apply IH.
Qed.

(** One failing part anywhere in the parameter set, and the loop ends with
    [invalidFilter] raised. *)
Lemma filterLoop_invalid (types : gmap string string) (query : Values)
  (db : DB) (inv : bool) (field value part : string) (rest : list string) :
  allHaveValue query ->
  field <> "" ->
  In (filterKey field, value :: rest) query ->
  In part (filterParts value) ->
  failsCoercion (declaredType types field) part ->
  exists db', filterLoop types query (db, inv) = Returned (db', true).
Proof.
  intros Hall Hfield Hentry Hin Hbad. revert db inv.
  induction query as [|[key vals] query IH]; intros db inv;
    cbn [filterLoop In] in *; [contradiction |].
  assert (allHaveValue query) as Hall'.
  { intros k vs Hk. apply (Hall k). now right. }
  destruct Hentry as [[= -> ->] | Hentry].
  - destruct (filterStep_invalid types db inv field value part rest)
      as [db1 ->]; auto.
    destruct (filterLoop_total types query (db1, true) Hall')
      as [[db2 inv2] Hloop].
    rewrite Hloop. apply filterLoop_sticky in Hloop as ->. eauto.
  - destruct (filterStep_returns types (db, inv) key vals) as [[db1 inv1] ->].
    { apply (Hall key). now left. }
    now apply IH.
Qed.

(** One filter key without values, and the loop panics, whatever the order
    of the visit. *)
Lemma filterLoop_panics (types : gmap string string) (query : Values)
  (st : DB * bool) (field : string) :
  field <> "" ->
  In (filterKey field, []) query ->
  filterLoop types query st = Panicked indexPanic.
Proof.
  intros Hfield. revert st.
  induction query as [|[key vals] query IH]; intros st Hin;
    cbn [filterLoop In] in *; [contradiction |].
  destruct (filterStep types st (key, vals)) as [st1|msg] eqn:Hstep.
  - destruct Hin as [[= -> ->] | Hin].
    + rewrite filterStep_empty_values in Hstep by assumption. discriminate.
    + now apply IH.
  - apply filterStep_panic in Hstep as [_ ->]. reflexivity.
Qed.

(** The loop only ever adds conditions. *)
Lemma filterStep_wheres (types : gmap string string) (st st' : DB * bool)
  (kv : string * list string) :
  filterStep types st kv = Returned st' ->
  st'.1 = st.1
  \/ exists q a, st'.1 = st.1 ++ [Where q a].
Proof.
  destruct st as [db inv], kv as [key vals]. unfold filterStep.
  repeat case_match; intros [= <-]; simpl; eauto.
Qed.

Lemma filterLoop_wheres (types : gmap string string) (query : Values)
  (st st' : DB * bool) :
  filterLoop types query st = Returned st' ->
  exists added,
    st'.1 = st.1 ++ added
    /\ Forall (fun c => exists q a, c = Where q a) added.
Proof.
  revert st. induction query as [|kv query IH]; intros st;
    cbn [filterLoop].
  - intros [= <-]. exists []. split; [now rewrite app_nil_r | constructor].
  - destruct (filterStep types st kv) as [st1|] eqn:Hstep; [|discriminate].
    intros Hloop. destruct (IH _ Hloop) as (added & -> & Hall).
    apply filterStep_wheres in Hstep as [-> | (q & a & ->)].
    + eauto.
    + exists (Where q a :: added). split.
      * now rewrite <- app_assoc.
      * constructor; eauto.
Qed.

(** ** The three ways [ReadPaginated] ends *)

Lemma ReadPaginated_panicked (h : heap) (query : Values) (db : DB)
  (modelPtr : option T) (opts : Options) (msg : string) :
  filterLoop (effectiveTypes h opts) query (db, false) = Panicked msg ->
  ReadPaginated h query db modelPtr opts
  = Build_run (mergeDefaults h opts).1 [] (Panicked msg).
Proof.
  unfold ReadPaginated, effectiveTypes.
  destruct (mergeDefaults h opts) as [h1 types]. cbn [fst snd].
  now intros ->.
Qed.

Lemma ReadPaginated_invalid (h : heap) (query : Values) (db db1 : DB)
  (modelPtr : option T) (opts : Options) :
  filterLoop (effectiveTypes h opts) query (db, false) = Returned (db1, true) ->
  ReadPaginated h query db modelPtr opts
  = Build_run (mergeDefaults h opts).1 []
      (Returned ({| Data := Some []; Meta := Some ∅ |},
                 Some ErrInvalidFilter)).
Proof.
  unfold ReadPaginated, effectiveTypes.
  destruct (mergeDefaults h opts) as [h1 types]. cbn [fst snd].
  now intros ->.
Qed.

Lemma ReadPaginated_valid (h : heap) (query : Values) (db db1 : DB)
  (modelPtr : option T) (opts : Options) :
  filterLoop (effectiveTypes h opts) query (db, false)
  = Returned (db1, false) ->
  ReadPaginated h query db modelPtr opts
  = match PaginateGeneric (compose query opts db1) modelPtr
            (resolvePage query opts) (resolvePageSize query opts)
    with
    | (ex, Panicked msg) => Build_run (mergeDefaults h opts).1 ex (Panicked msg)
    | (ex, Returned (Err e)) =>
        Build_run (mergeDefaults h opts).1 ex
          (Returned ({| Data := None; Meta := None |}, Some (EngineError e)))
    | (ex, Returned (Ok (data, pagination))) =>
        Build_run (mergeDefaults h opts).1 ex
          (Returned ({| Data := data;
                        Meta := Some {[ "pagination" := pagination ]} |},
                     None))
    end.
Proof.
  unfold ReadPaginated, effectiveTypes.
  destruct (mergeDefaults h opts) as [h1 types]. cbn [fst snd].
  now intros ->.
Qed.

(** A call that passes the filters hands the composed handle to the engine,
    first of all for the count. *)
Lemma ReadPaginated_counts (h : heap) (query : Values) (db db1 : DB)
  (modelPtr : option T) (opts : Options) :
  filterLoop (effectiveTypes h opts) query (db, false)
  = Returned (db1, false) ->
  exists more,
    issued (ReadPaginated h query db modelPtr opts)
    = ExecCount (compose query opts db1) :: more.
Proof.
  intros Hloop. rewrite (ReadPaginated_valid _ _ _ _ _ _ Hloop).
  unfold PaginateGeneric.
  destruct (Count (compose query opts db1)); [|simpl; eauto].
  destruct (Find _); [|simpl; eauto].
  destruct (paginationMeta _ _ _); simpl; eauto.
Qed.

(** ** Filters *)

(** C9.  A key [filter[<field>]] whose value list is empty makes
    [ReadPaginated] panic on the index of line 90, wherever the loop meets
    it; when every key has at least one value the filter loop runs to its
    end from any state, and [ReadPaginated] returns. *)
Theorem C9_empty_value_list_panics (h : heap) (query : Values) (db : DB)
  (modelPtr : option T) (opts : Options) :
  ((exists field, field <> "" /\ In (filterKey field, []) query) ->
   result (ReadPaginated h query db modelPtr opts) = Panicked indexPanic)
  /\ (allHaveValue query ->
      (forall types st, exists st', filterLoop types query st = Returned st')
      /\ exists r,
          result (ReadPaginated h query db modelPtr opts) = Returned r).
Proof.
  split.
  - intros (field & Hfield & Hin).
    rewrite (ReadPaginated_panicked _ _ _ _ _ indexPanic); [reflexivity |].
    now apply filterLoop_panics with field.
  - intros Hall. split.
    + intros types st. now apply filterLoop_total.
    + destruct (filterLoop_total (effectiveTypes h opts) query (db, false) Hall)
        as [[db1 [|]] Hloop].
      * rewrite (ReadPaginated_invalid _ _ _ _ _ _ Hloop). simpl. eauto.
      * rewrite (ReadPaginated_valid _ _ _ _ _ _ Hloop).
        destruct (PaginateGeneric_returns (compose query opts db1) modelPtr
                    (resolvePage query opts) (resolvePageSize query opts))
          as (ex & r & ->).
        { pose proof (resolvePageSize_lower query opts). lia. }
        destruct r as [[data pg]|e]; simpl; eauto.
Qed.

(** What the loop body emits on an entry [filter[<field>]]: for a first
    value without comma that is valid for the declared type, the condition
    [<field> = ?] on the one coerced value; for a first value with commas
    whose trimmed pieces are all valid, the condition [<field> IN ?] on all
    the coerced pieces in their order.  [invalidFilter] is left as it
    was. *)
Lemma filterStep_conditions (types : gmap string string) (db : DB)
  (inv : bool) (field value : string) (rest : list string) :
  field <> "" ->
  let ty := declaredType types field in
  let step := filterStep types (db, inv) (filterKey field, value :: rest) in
  let parts := map TrimSpace (Split value comma) in
  (Contains value comma = false ->
     (forall iv, ty = "int" -> Atoi value = Some iv ->
        step = Returned (db ++ [Where (field +:+ " = ?") (ArgInt iv)], inv))
     /\ (ty = "uuid" -> uuidParseOk value = true ->
        step = Returned (db ++ [Where (field +:+ " = ?") (ArgString value)],
                         inv))
     /\ (ty <> "int" -> ty <> "uuid" ->
        step = Returned (db ++ [Where (field +:+ " = ?") (ArgString value)],
                         inv)))
  /\ (Contains value comma = true ->
     (forall ints, ty = "int" ->
        Forall2 (fun p i => Atoi p = Some i) parts ints ->
        step = Returned (db ++ [Where (field +:+ " IN ?") (ArgInts ints)],
                         inv))
     /\ (ty = "uuid" -> Forall (fun p => uuidParseOk p = true) parts ->
        step = Returned (db ++ [Where (field +:+ " IN ?") (ArgStrings parts)],
                         inv))
     /\ (ty <> "int" -> ty <> "uuid" ->
        step = Returned (db ++ [Where (field +:+ " IN ?") (ArgStrings parts)],
                         inv))).
Proof.
  intros Hfield ty step parts. subst ty step parts. unfold declaredType.
  assert (map TrimSpace (Split value comma) <> []) as Hne.
  { pose proof (Split_nonempty value comma).
    destruct (Split value comma); [contradiction | discriminate]. }
  split; intros Hcomma; repeat split.
  - intros iv Hty Hok. enter_filter Hfield.
    rewrite Hcomma, Hty, Hok. reflexivity.
  - intros Hty Hok. enter_filter Hfield.
    rewrite Hcomma, Hty, Hok. reflexivity.
  - intros Hint Huuid. enter_filter Hfield. rewrite Hcomma.
    rewrite (proj2 (String.eqb_neq _ _) Hint).
    rewrite (proj2 (String.eqb_neq _ _) Huuid). reflexivity.
  - intros ints Hty Hok. enter_filter Hfield. rewrite Hcomma, Hty.
    cbn [String.eqb Ascii.eqb Bool.eqb].
    rewrite (collectInts_valid _ ints [] inv Hok). cbn [app].
    destruct ints; [|reflexivity].
    inversion Hok as [Hnil|]. now rewrite <- Hnil in Hne.
  - intros Hty Hok. enter_filter Hfield. rewrite Hcomma, Hty.
    cbn [String.eqb Ascii.eqb Bool.eqb].
    rewrite (collectUUIDs_valid _ [] inv Hok). cbn [app].
    destruct (map TrimSpace (Split value comma)); [contradiction | reflexivity].
  - intros Hint Huuid. enter_filter Hfield. rewrite Hcomma.
    rewrite (proj2 (String.eqb_neq _ _) Hint).
    rewrite (proj2 (String.eqb_neq _ _) Huuid). reflexivity.
Qed.

(** ** The composer *)

Lemma preloads_app (a b : DB) : preloads (a ++ b) = preloads a ++ preloads b.
Proof. apply flat_map_app. Qed.

Lemma orders_app (a b : DB) : orders (a ++ b) = orders a ++ orders b.
Proof. apply flat_map_app. Qed.

Lemma preloads_map (names : list string) :
  preloads (map Preload names) = names.
Proof. induction names as [|n names IH]; simpl; [reflexivity | now rewrite IH]. Qed.

Lemma preloads_wheres (wheres : DB) :
  Forall isWhere wheres -> preloads wheres = [].
Proof.
  induction 1 as [|c wheres (q & a & ->) _ IH]; simpl; [reflexivity | exact IH].
Qed.

Lemma orders_wheres (wheres : DB) :
  Forall isWhere wheres -> orders wheres = [].
Proof.
  induction 1 as [|c wheres (q & a & ->) _ IH]; simpl; [reflexivity | exact IH].
Qed.

Lemma preload_query_loop (pieces : list string) (db : DB) :
  foldl (fun db f =>
           let f := TrimSpace f in
           if negb (String.eqb f "") then db ++ [Preload f] else db)
        db pieces
  = db ++ map Preload
            (List.filter (fun f => negb (String.eqb f ""))
                         (map TrimSpace pieces)).
Proof.
  revert db. induction pieces as [|p pieces IH]; intros db; simpl.
  - now rewrite app_nil_r.
  - rewrite IH. destruct (negb (String.eqb (TrimSpace p) "")); simpl.
    + now rewrite <- app_assoc.
    + reflexivity.
Qed.

Lemma preload_default_loop (fields : list string) (db : DB) :
  foldl (fun db f => db ++ [Preload f]) db fields = db ++ map Preload fields.
Proof.
  revert db. induction fields as [|f fields IH]; intros db; simpl.
  - now rewrite app_nil_r.
  - rewrite IH. now rewrite <- app_assoc.
Qed.

Lemma applyPreload_query (query : Values) (opts : Options) (db : DB) :
  Get query "preload" <> "" ->
  applyPreload query opts db
  = db ++ map Preload (namesOf (Get query "preload")).
Proof.
  intros Hne. unfold applyPreload, namesOf.
  rewrite (proj2 (String.eqb_neq _ _) Hne). cbn [negb].
  apply preload_query_loop.
Qed.

Lemma applyPreload_default (query : Values) (opts : Options) (db : DB) :
  Get query "preload" = "" ->
  applyPreload query opts db = db ++ map Preload (PreloadFields opts).
Proof.
  intros He. unfold applyPreload. rewrite He. cbn [String.eqb negb].
  apply preload_default_loop.
Qed.

(** On a parameter set without repeated keys, [Get] is the first value of
    the entry under the key, wherever the entry stands. *)
Lemma Get_entry (query : Values) (key value : string) (rest : list string) :
  wf_Values query -> In (key, value :: rest) query -> Get query key = value.
Proof.
  unfold wf_Values, Get. intros Hwf Hin.
  induction query as [|[k vs] query IH]; cbn in *; [contradiction |].
  apply NoDup_cons in Hwf as [Hk Hwf].
  destruct Hin as [[= -> ->] | Hin].
  - now rewrite String.eqb_refl.
  - destruct (String.eqb_spec k key) as [->|Hne]; [|now apply IH].
    exfalso. apply Hk. apply list_elem_of_In, in_map_iff.
    now exists (key, value :: rest).
Qed.

Lemma Get_absent (query : Values) (key : string) :
  lookupKey query key = None -> Get query key = "".
Proof. unfold Get. now intros ->. Qed.

Lemma applySearch_where (opts : Options) (search : string) (db : DB) :
  exists added, applySearch opts search db = db ++ added /\ Forall isWhere added.
Proof.
  unfold applySearch.
  repeat case_match;
    first [ exists []; split; [now rewrite app_nil_r | constructor]
          | eexists [_]; split; [reflexivity |];
            constructor; [unfold isWhere; eauto | constructor] ].
Qed.

Lemma applyGroupBy_cases (query : Values) (opts : Options) (db : DB) :
  (AllowGroupBy opts = true /\ Get query "groupby" <> ""
   /\ exists s g,
       applyGroupBy query opts db
       = db ++ [Select s; Group g; Order "MAX(created_at) desc"])
  \/ ((AllowGroupBy opts = false \/ Get query "groupby" = "")
      /\ applyGroupBy query opts db = db).
Proof.
  unfold applyGroupBy. destruct (AllowGroupBy opts); [|right; auto].
  destruct (String.eqb_spec (Get query "groupby") "") as [He|Hne]; cbn [negb].
  - right; auto.
  - left. repeat split; eauto.
Qed.

Lemma applyOrder_expr (query : Values) (opts : Options) (db : DB) :
  applyOrder query opts db = db ++ [Order (orderExpr query opts)].
Proof.
  unfold applyOrder, orderExpr.
  destruct (String.eqb_spec (Get query "order") "") as [He|Hne]; cbn [negb].
  - destruct (String.eqb (OrderBy opts) ""); reflexivity.
  - now rewrite (proj2 (String.eqb_neq _ _) Hne).
Qed.

Lemma orderExpr_cases (query : Values) (opts : Options) :
  (Get query "order" <> "" -> orderExpr query opts = Get query "order")
  /\ (Get query "order" = "" -> OrderBy opts <> "" ->
      orderExpr query opts = OrderBy opts)
  /\ (Get query "order" = "" -> OrderBy opts = "" ->
      orderExpr query opts = "created_at desc").
Proof.
  unfold orderExpr. repeat split.
  - intros Hne. now rewrite (proj2 (String.eqb_neq _ _) Hne).
  - intros -> Hne. cbn. now rewrite (proj2 (String.eqb_neq _ _) Hne).
  - now intros -> ->.
Qed.

(** The clauses the composer puts on a handle: the preloads, at most one
    search condition, the group clauses if any, and one order. *)
Lemma compose_shape (query : Values) (opts : Options) (db : DB) :
  exists search group,
    compose query opts db
    = applyPreload query opts db ++ search ++ group
      ++ [Order (orderExpr query opts)]
    /\ Forall isWhere search
    /\ ((AllowGroupBy opts = true /\ Get query "groupby" <> ""
         /\ exists s g,
             group = [Select s; Group g; Order "MAX(created_at) desc"])
        \/ ((AllowGroupBy opts = false \/ Get query "groupby" = "")
            /\ group = [])).
Proof.
  unfold compose. rewrite applyOrder_expr.
  destruct (applySearch_where opts (Get query "search")
              (applyPreload query opts db)) as (search & -> & Hs).
  destruct (applyGroupBy_cases query opts
              (applyPreload query opts db ++ search))
    as [(Ha & Hg & s & g & ->) | (Hoff & ->)].
  - exists search, [Select s; Group g; Order "MAX(created_at) desc"].
    split; [now rewrite <- !app_assoc |]. split; [exact Hs |].
    left. eauto.
  - exists search, []. split; [now rewrite <- !app_assoc |]. split; [exact Hs |].
    right. auto.
Qed.

Lemma afterGroup_last (pre rest : DB) (g : string) :
  existsb isGroup rest = false ->
  afterGroup (pre ++ Group g :: rest) = rest.
Proof.
  intros Hrest. induction pre as [|c pre IH]; cbn [app afterGroup].
  - now rewrite Hrest.
  - rewrite existsb_app. cbn [existsb isGroup].
    rewrite orb_true_r. exact IH.
Qed.

(** Every query that [ReadPaginated] hands to the engine is the composed
    handle over the caller's handle and the conditions of the filter loop,
    with the page window on the fetch. *)
Lemma issued_shape (h : heap) (query : Values) (db : DB)
  (modelPtr : option T) (opts : Options) (x : exec) :
  In x (issued (ReadPaginated h query db modelPtr opts)) ->
  exists wheres window,
    filterLoop (effectiveTypes h opts) query (db, false)
    = Returned (db ++ wheres, false)
    /\ Forall isWhere wheres
    /\ handle x = compose query opts (db ++ wheres) ++ window
    /\ (window = [] \/ exists n m, window = [Limit n; Offset m]).
Proof.
  destruct (filterLoop (effectiveTypes h opts) query (db, false))
    as [[db1 [|]]|msg] eqn:Hloop.
  - rewrite (ReadPaginated_invalid _ _ _ _ _ _ Hloop). intros [].
  - rewrite (ReadPaginated_valid _ _ _ _ _ _ Hloop).
    destruct (filterLoop_wheres _ _ _ _ Hloop) as (wheres & Hdb1 & Hw).
    cbn [fst] in Hdb1. subst db1. intros Hin.
    exists wheres.
    assert (In x [ExecCount (compose query opts (db ++ wheres));
                  ExecFind (compose query opts (db ++ wheres)
                            ++ [Limit (resolvePageSize query opts);
                                Offset (GoInt.mul
                                          (GoInt.sub (resolvePage query opts) 1)
                                          (resolvePageSize query opts))])])
      as Hx.
    { revert Hin. unfold PaginateGeneric.
      destruct (Count _); [|cbn; tauto].
      destruct (Find _) as [out|e]; [|cbn; tauto].
      destruct (paginationMeta _ _ _); cbn; tauto. }
    destruct Hx as [<- | [<- | []]].
    + exists []. rewrite app_nil_r. auto.
    + eexists. split; [reflexivity |]. split; [exact Hw |].
      split; [reflexivity |]. eauto.
  - rewrite (ReadPaginated_panicked _ _ _ _ _ _ Hloop). intros [].
Qed.

Lemma compose_preloads (query : Values) (opts : Options) (db : DB) :
  preloads (compose query opts db) = preloads (applyPreload query opts db).
Proof.
  destruct (compose_shape query opts db) as (search & group & -> & Hs & Hg).
  rewrite !preloads_app, (preloads_wheres _ Hs).
  destruct Hg as [(_ & _ & s & g & ->) | (_ & ->)]; cbn;
    now rewrite app_nil_r.
Qed.

Lemma issued_preloads (h : heap) (query : Values) (db : DB)
  (modelPtr : option T) (opts : Options) (x : exec) (names : list string) :
  (forall db', applyPreload query opts db' = db' ++ map Preload names) ->
  In x (issued (ReadPaginated h query db modelPtr opts)) ->
  preloads (handle x) = preloads db ++ names.
Proof.
  intros Hpre Hin.
  destruct (issued_shape _ _ _ _ _ _ Hin)
    as (wheres & window & _ & Hw & -> & Hwin).
  rewrite preloads_app, compose_preloads, Hpre, !preloads_app.
  rewrite (preloads_wheres _ Hw), preloads_map.
  destruct Hwin as [-> | (n & m & ->)]; cbn; now rewrite !app_nil_r.
Qed.

(** The preload step, and the preloads of the queries handed to the
    engine. *)
Lemma preload_step_and_queries (h : heap) (query : Values) (db : DB)
  (modelPtr : option T) (opts : Options) :
  (Get query "preload" <> "" ->
   applyPreload query opts db
   = db ++ map Preload (namesOf (Get query "preload"))
   /\ forall x, In x (issued (ReadPaginated h query db modelPtr opts)) ->
        preloads (handle x) = preloads db ++ namesOf (Get query "preload"))
  /\ (lookupKey query "preload" = None ->
      applyPreload query opts db = db ++ map Preload (PreloadFields opts)
      /\ forall x, In x (issued (ReadPaginated h query db modelPtr opts)) ->
           preloads (handle x) = preloads db ++ PreloadFields opts).
Proof.
  split.
  - intros Hne. split; [now apply applyPreload_query |].
    intros x. apply issued_preloads.
    intros db'. now apply applyPreload_query.
  - intros Habs. apply Get_absent in Habs.
    split; [now apply applyPreload_default |].
    intros x. apply issued_preloads.
    intros db'. now apply applyPreload_default.
Qed.

Lemma issued_last_order (h : heap) (query : Values) (db : DB)
  (modelPtr : option T) (opts : Options) (x : exec) :
  In x (issued (ReadPaginated h query db modelPtr opts)) ->
  last (orders (handle x)) = Some (orderExpr query opts).
Proof.
  intros Hin.
  destruct (issued_shape _ _ _ _ _ _ Hin)
    as (wheres & window & _ & Hw & -> & Hwin).
  unfold compose. rewrite applyOrder_expr, !orders_app.
  replace (orders window) with (@nil string)
    by (destruct Hwin as [-> | (n & m & ->)]; reflexivity).
  rewrite app_nil_r. cbn [orders flat_map app]. apply last_snoc.
Qed.

Lemma compose_group (query : Values) (opts : Options) (db : DB) :
  AllowGroupBy opts = true -> Get query "groupby" <> "" ->
  exists pre s g,
    compose query opts db
    = pre ++ [Select s; Group g; Order "MAX(created_at) desc";
              Order (orderExpr query opts)].
Proof.
  intros Ha Hg.
  destruct (compose_shape query opts db) as (search & group & -> & _ & Hcase).
  destruct Hcase as [(_ & _ & s & g & ->) | ([Hoff | Hoff] & _)].
  - exists (applyPreload query opts db ++ search), s, g.
    now rewrite <- !app_assoc.
  - congruence.
  - contradiction.
Qed.

(** ** From the loop body to the engine *)

Lemma filterLoop_emits (types : gmap string string) (query : Values)
  (st st' : DB * bool) (kv : string * list string) (c : clause) :
  In kv query ->
  (forall st0, filterStep types st0 kv = Returned (st0.1 ++ [c], st0.2)) ->
  filterLoop types query st = Returned st' ->
  In c st'.1.
Proof.
  intros Hin Hemit. revert st.
  induction query as [|kv0 query IH]; intros st;
    cbn [filterLoop In] in *; [contradiction |].
  destruct (filterStep types st kv0) as [st1|] eqn:Hstep;
    [|intros ?; discriminate].
  intros Hloop. destruct Hin as [-> | Hin]; [|now apply (IH Hin st1)].
  rewrite Hemit in Hstep. injection Hstep as <-.
  destruct (filterLoop_wheres _ _ _ _ Hloop) as (added & -> & _).
  cbn [fst]. rewrite !in_app_iff. left. right. now left.
Qed.

Lemma compose_extends (query : Values) (opts : Options) (db : DB) :
  exists added, compose query opts db = db ++ added.
Proof.
  destruct (compose_shape query opts db) as (search & group & -> & _ & _).
  unfold applyPreload.
  destruct (negb _);
    [rewrite preload_query_loop | rewrite preload_default_loop];
    rewrite <- !app_assoc; eauto.
Qed.

(** A condition that the loop body emits for an entry of the parameter
    set, whatever the state it runs from, is on every query that the call
    hands to the engine. *)
Lemma emitted_condition_reaches_engine (h : heap) (query : Values) (db : DB)
  (modelPtr : option T) (opts : Options) (kv : string * list string)
  (c : clause) (x : exec) :
  In kv query ->
  (forall st0,
     filterStep (effectiveTypes h opts) st0 kv
     = Returned (st0.1 ++ [c], st0.2)) ->
  In x (issued (ReadPaginated h query db modelPtr opts)) ->
  In c (handle x).
Proof.
  intros Hkv Hemit Hin.
  destruct (issued_shape _ _ _ _ _ _ Hin)
    as (wheres & window & Hloop & _ & -> & _).
  pose proof (filterLoop_emits _ _ _ _ _ _ Hkv Hemit Hloop) as Hc.
  cbn [fst] in Hc.
  destruct (compose_extends query opts (db ++ wheres)) as [added ->].
  apply in_or_app. left. apply in_or_app. now left.
Qed.

(** ** The page window *)

Lemma lookupKey_dropKey_same (query : Values) (key : string) :
  lookupKey (dropKey key query) key = None.
Proof.
  unfold dropKey.
  induction query as [|[k vs] query IH]; cbn; [reflexivity |].
  destruct (String.eqb_spec k key) as [->|Hne]; cbn; [exact IH |].
  now rewrite (proj2 (String.eqb_neq _ _) Hne).
Qed.

Lemma lookupKey_dropKey_other (query : Values) (key key' : string) :
  key' <> key ->
  lookupKey (dropKey key query) key' = lookupKey query key'.
Proof.
  intros Hne. unfold dropKey.
  induction query as [|[k vs] query IH]; cbn; [reflexivity |].
  destruct (String.eqb_spec k key) as [->|Hk]; cbn.
  - rewrite IH. symmetry.
    now rewrite (proj2 (String.eqb_neq key key')) by congruence.
  - now rewrite IH.
Qed.

Lemma Get_dropKey_other (query : Values) (key key' : string) :
  key' <> key -> Get (dropKey key query) key' = Get query key'.
Proof. intros Hne. unfold Get. now rewrite lookupKey_dropKey_other. Qed.

Lemma filterLoop_dropKey (types : gmap string string) (query : Values)
  (key : string) (st : DB * bool) :
  HasPrefix key "filter[" = false ->
  filterLoop types (dropKey key query) st = filterLoop types query st.
Proof.
  intros Hp. revert st. unfold dropKey.
  induction query as [|[k vs] query IH]; intros st; [reflexivity |].
  cbn [List.filter fst].
  destruct (String.eqb_spec k key) as [->|Hk]; cbn [negb filterLoop].
  - rewrite IH. destruct st as [db inv].
    unfold filterStep. now rewrite Hp.
  - destruct (filterStep types st (k, vs)); [apply IH | reflexivity].
Qed.

Lemma compose_dropKey (query : Values) (opts : Options) (key : string)
  (db : DB) :
  key <> "preload" -> key <> "search" -> key <> "groupby" ->
  key <> "order" ->
  compose (dropKey key query) opts db = compose query opts db.
Proof.
  intros H1 H2 H3 H4.
  unfold compose, applyOrder, applyGroupBy, applyPreload.
  rewrite !Get_dropKey_other by congruence. reflexivity.
Qed.

(** [ReadPaginated] reads the parameter set through the page window, the
    filter loop and the composer only. *)
Lemma ReadPaginated_ext (h : heap) (query query' : Values) (db : DB)
  (modelPtr : option T) (opts : Options) :
  resolvePage query' opts = resolvePage query opts ->
  resolvePageSize query' opts = resolvePageSize query opts ->
  (forall types st, filterLoop types query' st = filterLoop types query st) ->
  (forall db1, compose query' opts db1 = compose query opts db1) ->
  ReadPaginated h query' db modelPtr opts
  = ReadPaginated h query db modelPtr opts.
Proof.
  intros Hp Hs Hf Hc. unfold ReadPaginated.
  rewrite Hp, Hs. destruct (mergeDefaults h opts) as [h1 types].
  rewrite Hf. destruct (filterLoop _ query (db, false)) as [[db1 inv]|];
    [|reflexivity].
  now rewrite Hc.
Qed.

Lemma default_window (d fallback : Z) :
  (if d <=? 0 then fallback else d) = (if 0 <? d then d else fallback).
Proof. destruct (Z.leb_spec d 0), (Z.ltb_spec 0 d); lia. Qed.

Lemma resolvePage_ignored (query : Values) (opts : Options) :
  Get query "page" = "" \/ notPositiveInt (Get query "page") ->
  resolvePage query opts = defaultPage opts.
Proof.
  unfold resolvePage, defaultPage, notPositiveInt. rewrite default_window.
  intros [-> | [-> | (n & -> & Hn)]]; [reflexivity | | ].
  - now destruct (negb _).
  - destruct (negb _); [|reflexivity].
    destruct (Z.ltb_spec 0 n); [lia | reflexivity].
Qed.

Lemma resolvePageSize_ignored (query : Values) (opts : Options) :
  Get query "pageSize" = "" \/ notPositiveInt (Get query "pageSize") ->
  resolvePageSize query opts = defaultPageSize opts.
Proof.
  unfold resolvePageSize, defaultPageSize, notPositiveInt.
  rewrite default_window.
  intros [-> | [-> | (n & -> & Hn)]]; [reflexivity | | ].
  - now destruct (negb _).
  - destruct (negb _); [|reflexivity].
    destruct (Z.ltb_spec 0 n); [lia | reflexivity].
Qed.

Lemma resolvePage_dropKey (query : Values) (opts : Options) (key : string) :
  key <> "page" ->
  resolvePage (dropKey key query) opts = resolvePage query opts.
Proof.
  intros Hne. unfold resolvePage. now rewrite Get_dropKey_other by congruence.
Qed.

Lemma resolvePageSize_dropKey (query : Values) (opts : Options)
  (key : string) :
  key <> "pageSize" ->
  resolvePageSize (dropKey key query) opts = resolvePageSize query opts.
Proof.
  intros Hne. unfold resolvePageSize.
  now rewrite Get_dropKey_other by congruence.
Qed.

(** The page window: its bounds, its defaults, and the parameters it
    passes over. *)
Lemma page_window_resolved (h : heap) (query : Values) (db : DB)
  (modelPtr : option T) (opts : Options) :
  1 <= resolvePage query opts
  /\ 1 <= resolvePageSize query opts
  /\ (Get query "page" = "" \/ notPositiveInt (Get query "page") ->
      resolvePage query opts = defaultPage opts
      /\ ReadPaginated h query db modelPtr opts
         = ReadPaginated h (dropKey "page" query) db modelPtr opts)
  /\ (Get query "pageSize" = "" \/ notPositiveInt (Get query "pageSize") ->
      resolvePageSize query opts = defaultPageSize opts
      /\ ReadPaginated h query db modelPtr opts
         = ReadPaginated h (dropKey "pageSize" query) db modelPtr opts)
  /\ (forall n, Get query "page" <> "" -> Atoi (Get query "page") = Some n ->
      0 < n -> resolvePage query opts = n)
  /\ (forall n, Get query "pageSize" <> "" ->
      Atoi (Get query "pageSize") = Some n ->
      0 < n -> resolvePageSize query opts = n).
Proof.
  split; [apply resolvePage_lower |].
  split; [apply resolvePageSize_lower |].
  split; [|split; [|split]].
  - intros Hign. split; [now apply resolvePage_ignored |].
    symmetry. apply ReadPaginated_ext.
    + rewrite (resolvePage_ignored query opts Hign).
      apply resolvePage_ignored. left.
      apply Get_absent, lookupKey_dropKey_same.
    + now apply resolvePageSize_dropKey.
    + intros types st. now apply filterLoop_dropKey.
    + intros db1. now apply compose_dropKey.
  - intros Hign. split; [now apply resolvePageSize_ignored |].
    symmetry. apply ReadPaginated_ext.
    + now apply resolvePage_dropKey.
    + rewrite (resolvePageSize_ignored query opts Hign).
      apply resolvePageSize_ignored. left.
      apply Get_absent, lookupKey_dropKey_same.
    + intros types st. now apply filterLoop_dropKey.
    + intros db1. now apply compose_dropKey.
  - intros n Hne Hn Hpos. unfold resolvePage.
    rewrite (proj2 (String.eqb_neq _ _) Hne), Hn. cbn [negb].
    now rewrite (proj2 (Z.ltb_lt 0 n) Hpos).
  - intros n Hne Hn Hpos. unfold resolvePageSize.
    rewrite (proj2 (String.eqb_neq _ _) Hne), Hn. cbn [negb].
    now rewrite (proj2 (Z.ltb_lt 0 n) Hpos).
Qed.

(** ** Pagination arithmetic *)

Lemma wrap64_in_range (z : Z) : GoInt.in_range z -> GoInt.wrap64 z = z.
Proof.
  unfold GoInt.in_range, GoInt.wrap64, GoInt.minInt64, GoInt.maxInt64.
  intros Hz. rewrite Z.mod_small; lia.
Qed.

Lemma wrap64_sub_idemp (a b : Z) :
  GoInt.wrap64 (GoInt.wrap64 a - b) = GoInt.wrap64 (a - b).
Proof.
  unfold GoInt.wrap64. f_equal.
  replace ((a + 2 ^ 63) mod 2 ^ 64 - 2 ^ 63 - b + 2 ^ 63)
    with ((a + 2 ^ 63) mod 2 ^ 64 - b) by lia.
  rewrite Zminus_mod_idemp_l. f_equal. lia.
Qed.

Lemma ceilDiv_bounds (total pageSize : Z) :
  0 < pageSize ->
  (ceilDiv total pageSize - 1) * pageSize < total
  <= ceilDiv total pageSize * pageSize.
Proof.
  intros Hp. unfold ceilDiv.
  pose proof (Z.div_mod (- total) pageSize ltac:(lia)).
  pose proof (Z.mod_pos_bound (- total) pageSize Hp). nia.
Qed.

Lemma ceilDiv_idiom (total pageSize : Z) :
  0 <= total -> 0 < pageSize ->
  Z.quot (total + pageSize - 1) pageSize = ceilDiv total pageSize.
Proof.
  intros Ht Hp. rewrite Z.quot_div_nonneg by lia.
  pose proof (ceilDiv_bounds total pageSize Hp).
  symmetry. apply Z.div_unique with (total + pageSize - 1
                                     - pageSize * ceilDiv total pageSize);
    [left|]; nia.
Qed.

(** As long as [total + pageSize - 1] fits an [int64], the page count is
    the exact ceiling and the two flags are as the comparisons say. *)
Lemma paginationMeta_exact (total page pageSize : Z) :
  0 <= total -> 1 <= pageSize ->
  total + pageSize - 1 <= GoInt.maxInt64 ->
  exists meta,
    paginationMeta total page pageSize = Returned meta
    /\ pageCount meta = ceilDiv total pageSize
    /\ hasNext meta = (page <? ceilDiv total pageSize)
    /\ hasPrev meta = ((1 <? page) && (0 <? ceilDiv total pageSize)).
Proof.
  intros Ht Hp Hfit.
  assert (GoInt.div (GoInt.sub (GoInt.add total pageSize) 1) pageSize
          = ceilDiv total pageSize) as Hcount.
  { unfold GoInt.div, GoInt.sub, GoInt.add.
    rewrite wrap64_sub_idemp.
    replace (total + pageSize - 1) with (total + pageSize - 1) by lia.
    rewrite (wrap64_in_range (total + pageSize - 1)).
    2:{ unfold GoInt.in_range, GoInt.minInt64. lia. }
    rewrite ceilDiv_idiom by lia.
    apply wrap64_in_range.
    pose proof (ceilDiv_bounds total pageSize ltac:(lia)).
    unfold GoInt.in_range, GoInt.minInt64, GoInt.maxInt64 in *. nia. }
  unfold paginationMeta.
  rewrite (proj2 (Z.eqb_neq pageSize 0)) by lia.
  eexists. split; [reflexivity |]. cbn [pageCount hasNext hasPrev].
  rewrite Hcount. auto.
Qed.

Lemma paginationMeta_examples :
  paginationMeta 48 1 10
  = Returned {| page := 1; pageSize := 10; pageCount := 5; total := 48;
                hasNext := true; hasPrev := false |}
  /\ paginationMeta 48 5 10
     = Returned {| page := 5; pageSize := 10; pageCount := 5; total := 48;
                   hasNext := false; hasPrev := true |}
  /\ paginationMeta 0 3 10
     = Returned {| page := 3; pageSize := 10; pageCount := 0; total := 0;
                   hasNext := false; hasPrev := false |}.
Proof. repeat split; reflexivity. Qed.

(** ** The merge of the field types *)

Lemma merge_keeps (m m2 : gmap string string) (k v x : string) :
  m !! k = Some x -> m ∪ <[k := v]> m2 = m ∪ m2.
Proof.
  intros Hk. apply map_eq. intros i. rewrite !lookup_union.
  destruct (decide (i = k)) as [->|Hne].
  - rewrite Hk. now destruct (<[k:=v]> m2 !! k), (m2 !! k).
  - now rewrite lookup_insert_ne.
Qed.

Lemma mergeOne_step (l : loc) (h : heap) (m : gmap string string)
  (k v : string) :
  h !! l = Some m ->
  mergeOne l h (k, v)
  = match m !! k with
    | Some _ => h
    | None => <[l := <[k := v]> m]> h
    end.
Proof. intros Hl. unfold mergeOne. now rewrite Hl. Qed.

Lemma foldl_mergeOne (l : loc) (kvs : list (string * string)) :
  forall (h : heap) (m : gmap string string),
    h !! l = Some m ->
    foldl (mergeOne l) h kvs !! l = Some (m ∪ list_to_map kvs)
    /\ forall l', l' <> l -> foldl (mergeOne l) h kvs !! l' = h !! l'.
Proof.
  induction kvs as [|[k v] kvs IH]; intros h m Hl; cbn [foldl].
  - split; [|reflexivity]. rewrite list_to_map_nil.
    now rewrite (right_id_L ∅ (∪)).
  - rewrite list_to_map_cons, (mergeOne_step l h m k v Hl).
    destruct (m !! k) as [x|] eqn:Hk.
    + destruct (IH h m Hl) as [-> Hother]. split; [|exact Hother].
      f_equal. symmetry. now apply merge_keeps with x.
    + destruct (IH (<[l := <[k := v]> m]> h) (<[k := v]> m)) as [-> Hother].
      { apply lookup_insert_eq. }
      split.
      * f_equal. rewrite <- insert_union_l. now rewrite insert_union_r.
      * intros l' Hne. rewrite Hother by assumption.
        now rewrite lookup_insert_ne.
Qed.

Lemma fresh_not_allocated (h : heap) (l : loc) :
  is_Some (h !! l) -> l <> fresh (dom h).
Proof.
  intros Hl ->. apply elem_of_dom in Hl. now apply is_fresh in Hl.
Qed.

Lemma ReadPaginated_heap (h : heap) (query : Values) (db : DB)
  (modelPtr : option T) (opts : Options) :
  heap_after (ReadPaginated h query db modelPtr opts)
  = (mergeDefaults h opts).1.
Proof.
  unfold ReadPaginated. destruct (mergeDefaults h opts) as [h1 types].
  destruct (filterLoop _ query (db, false)) as [[db1 [|]]|]; try reflexivity.
  destruct (PaginateGeneric _ _ _ _) as [ex [[[data pg]|e]|msg]]; reflexivity.
Qed.

(** X14.  With a nil [DefaultFieldTypes] the call writes no map of the
    caller. *)
Lemma nil_types_frame (h : heap) (query : Values) (db : DB)
  (modelPtr : option T) (opts : Options) (l : loc) :
  DefaultFieldTypes opts = None ->
  is_Some (h !! l) ->
  heap_after (ReadPaginated h query db modelPtr opts) !! l = h !! l.
Proof.
  intros Hnil Hl. rewrite ReadPaginated_heap. unfold mergeDefaults.
  rewrite Hnil. cbn [fst]. apply lookup_insert_ne.
  intros Heq. now apply (fresh_not_allocated h l).
Qed.

(** X15.  With a map in [DefaultFieldTypes], the call leaves that very map
    holding the caller's entries and, under every key it lacked, the
    built-in default; the other maps are as before. *)
Lemma caller_types_merged (h : heap) (query : Values) (db : DB)
  (modelPtr : option T) (opts : Options) (l : loc)
  (m : gmap string string) :
  DefaultFieldTypes opts = Some l ->
  h !! l = Some m ->
  heap_after (ReadPaginated h query db modelPtr opts) !! l
  = Some (m ∪ list_to_map defaultAllowed)
  /\ forall l', l' <> l -> is_Some (h !! l') ->
       heap_after (ReadPaginated h query db modelPtr opts) !! l' = h !! l'.
Proof.
  intros Hsome Hl. rewrite ReadPaginated_heap. unfold mergeDefaults.
  rewrite Hsome. cbn [fst].
  assert (l <> fresh (dom h)) as Hfresh
    by (apply fresh_not_allocated; eauto).
  destruct (foldl_mergeOne l defaultAllowed
              (<[fresh (dom h) := list_to_map defaultAllowed]> h) m)
    as [Hmerged Hother].
  { now rewrite lookup_insert_ne. }
  split; [exact Hmerged |].
  intros l' Hne Hl'. rewrite Hother by assumption.
  apply lookup_insert_ne. intros Heq.
  now apply (fresh_not_allocated h l').
Qed.

(** C2.  With the options of the README example, whose [DefaultFieldTypes]
    map holds [id] and [status] only, a call on any parameter set leaves
    the caller's map with [jumlah] and [gudang_id] added: the merge of
    lines 76-80 writes through the reference shared with the caller. *)
Theorem C2_merge_writes_caller_map (query : Values) (db : DB)
  (modelPtr : option T) :
  let m : gmap string string := {[ "id" := "uuid"; "status" := "string" ]} in
  let h : heap := {[ 1%positive := m ]} in
  let opts := {| SearchField := "name";
                 OrderBy := "created_at desc";
                 PreloadFields := [];
                 DefaultFieldTypes := Some 1%positive;
                 DefaultPage := 0;
                 DefaultPageSize := 0;
                 AllowGroupBy := true |} in
  h !! 1%positive = Some m
  /\ m !! "jumlah" = None
  /\ heap_after (ReadPaginated h query db modelPtr opts) !! 1%positive
     = Some (<[ "jumlah" := "int" ]> (<[ "gudang_id" := "uuid" ]> m))
  /\ heap_after (ReadPaginated h query db modelPtr opts) !! 1%positive
     <> h !! 1%positive.
Proof.
  intros m h opts.
  assert (heap_after (ReadPaginated h query db modelPtr opts) !! 1%positive
          = Some (<[ "jumlah" := "int" ]> (<[ "gudang_id" := "uuid" ]> m)))
    as Hafter.
  { rewrite ReadPaginated_heap. vm_compute. reflexivity. }
  split; [reflexivity |]. split; [reflexivity |]. split; [exact Hafter |].
  rewrite Hafter. vm_compute. discriminate.
Qed.

(** ** The Gin wrapper *)

(** C10.  [ReadPaginatedFromGin] is [ReadPaginated] on the same arguments:
    the same result and error, the same queries, the same store. *)
Theorem C10_gin_wrapper (h : heap) (ctxQuery : Values) (db : DB)
  (modelPtr : option T) (opts : Options) :
  ReadPaginatedFromGin h ctxQuery db modelPtr opts
  = ReadPaginated h ctxQuery db modelPtr opts.
Proof. reflexivity. Qed.

(** ** The search step *)

Lemma Join_Split (s : string) (sep : ascii) :
  Join (Split s sep) (String sep EmptyString) = s.
Proof.
  unfold Join. induction s as [|c s IH]; [reflexivity |].
  pose proof (Split_nonempty s sep) as Hne. cbn [Split].
  destruct (Ascii.eqb_spec c sep) as [->|Hc].
  - destruct (Split s sep) as [|p ps]; [contradiction |].
    change (String.concat (String sep EmptyString) (EmptyString :: p :: ps))
      with (String sep (String.concat (String sep EmptyString) (p :: ps))).
    now rewrite IH.
  - destruct (Split s sep) as [|p [|q qs]]; [contradiction | |].
    + cbn in IH |- *. now rewrite IH.
    + change (String.concat (String sep EmptyString) (String c p :: q :: qs))
        with (String c (String.concat (String sep EmptyString) (p :: q :: qs))).
      now rewrite IH.
Qed.

Lemma applySearch_condition (opts : Options) (search : string) (db : DB) :
  SearchField opts <> "" -> search <> "" ->
  applySearch opts search db = db ++ [searchCondition opts search].
Proof.
  intros Hf Hs. unfold applySearch, searchCondition.
  rewrite (proj2 (String.eqb_neq _ _) Hf), (proj2 (String.eqb_neq _ _) Hs).
  cbn [negb andb].
  destruct (Contains (SearchField opts) dot); [|reflexivity].
  pose proof (Join_Split (SearchField opts) dot) as HJ.
  destruct (Split (SearchField opts) dot) as [|a [|b [|c l]]];
    try reflexivity.
  change (a +:+ "." +:+ b = SearchField opts) in HJ.
  rewrite <- HJ, !append_assoc. reflexivity.
Qed.

Lemma applySearch_off (opts : Options) (search : string) (db : DB) :
  SearchField opts = "" \/ search = "" -> applySearch opts search db = db.
Proof.
  unfold applySearch. intros [-> | ->]; [reflexivity |].
  now rewrite andb_false_r.
Qed.

Lemma applyGroupBy_off (query : Values) (opts : Options) (db : DB) :
  AllowGroupBy opts = false \/ Get query "groupby" = "" ->
  applyGroupBy query opts db = db.
Proof.
  unfold applyGroupBy. intros [-> | ->]; [reflexivity |].
  now destruct (AllowGroupBy opts).
Qed.

Lemma compose_search (query : Values) (opts : Options) (db : DB) :
  SearchField opts <> "" -> Get query "search" <> "" ->
  In (searchCondition opts (Get query "search")) (compose query opts db).
Proof.
  intros Hf Hs. unfold compose.
  rewrite applyOrder_expr, (applySearch_condition _ _ _ Hf Hs).
  destruct (applyGroupBy_cases query opts
              (applyPreload query opts db
               ++ [searchCondition opts (Get query "search")]))
    as [(_ & _ & s & g & ->) | (_ & ->)];
    rewrite !in_app_iff; cbn; tauto.
Qed.

(** X1.  With a search field configured and a non-empty [search]
    parameter, the search step adds one condition, and the same one on the
    three paths of lines 169-181: [<SearchField> ILIKE ?] on the pattern
    [%<search>%].  For a field with one dot the relation and the field are
    put back together as they were.  The condition is on every query the
    call hands to the engine. *)
Theorem search_adds_one_condition (h : heap) (query : Values) (db : DB)
  (modelPtr : option T) (opts : Options) :
  SearchField opts <> "" ->
  Get query "search" <> "" ->
  applySearch opts (Get query "search") db
  = db ++ [Where (SearchField opts +:+ " ILIKE ?")
                 (ArgString ("%" +:+ Get query "search" +:+ "%"))]
  /\ forall x, In x (issued (ReadPaginated h query db modelPtr opts)) ->
       In (Where (SearchField opts +:+ " ILIKE ?")
                 (ArgString ("%" +:+ Get query "search" +:+ "%")))
          (handle x).
Proof.
  intros Hf Hs. split; [now apply applySearch_condition |].
  intros x Hin.
  destruct (issued_shape _ _ _ _ _ _ Hin)
    as (wheres & window & _ & _ & -> & _).
  apply in_or_app. left. now apply compose_search.
Qed.

Lemma compose_dropKey_search (query : Values) (opts : Options) (db : DB) :
  SearchField opts = "" \/ Get query "search" = "" ->
  compose (dropKey "search" query) opts db = compose query opts db.
Proof.
  intros Hoff. unfold compose.
  rewrite (applySearch_off opts (Get query "search")) by assumption.
  rewrite (applySearch_off opts (Get (dropKey "search" query) "search")).
  2:{ right. apply Get_absent, lookupKey_dropKey_same. }
  unfold applyOrder, applyGroupBy, applyPreload.
  rewrite !Get_dropKey_other by congruence. reflexivity.
Qed.

(** X2.  Without a configured search field, or with an empty or absent
    [search] parameter, no search condition is added, and the call behaves
    as on the parameter set without the [search] key. *)
Theorem search_off_is_ignored (h : heap) (query : Values) (db : DB)
  (modelPtr : option T) (opts : Options) :
  SearchField opts = "" \/ Get query "search" = "" ->
  applySearch opts (Get query "search") db = db
  /\ ReadPaginated h query db modelPtr opts
     = ReadPaginated h (dropKey "search" query) db modelPtr opts.
Proof.
  intros Hoff. split; [now apply applySearch_off |].
  symmetry. apply ReadPaginated_ext.
  - now apply resolvePage_dropKey.
  - now apply resolvePageSize_dropKey.
  - intros types st. now apply filterLoop_dropKey.
  - intros db1. now apply compose_dropKey_search.
Qed.

Lemma compose_dropKey_groupby (query : Values) (opts : Options) (db : DB) :
  AllowGroupBy opts = false \/ Get query "groupby" = "" ->
  compose (dropKey "groupby" query) opts db = compose query opts db.
Proof.
  intros Hoff. unfold compose.
  rewrite (applyGroupBy_off query opts) by assumption.
  rewrite (applyGroupBy_off (dropKey "groupby" query) opts).
  2:{ right. apply Get_absent, lookupKey_dropKey_same. }
  unfold applyOrder, applyPreload.
  rewrite !Get_dropKey_other by congruence. reflexivity.
Qed.

(** X3.  When the options do not allow group-by, or the [groupby]
    parameter is empty or absent, the group step adds nothing and the call
    behaves as on the parameter set without the [groupby] key: a request
    cannot switch grouping on by itself. *)
Theorem groupby_off_is_ignored (h : heap) (query : Values) (db : DB)
  (modelPtr : option T) (opts : Options) :
  AllowGroupBy opts = false \/ Get query "groupby" = "" ->
  applyGroupBy query opts db = db
  /\ ReadPaginated h query db modelPtr opts
     = ReadPaginated h (dropKey "groupby" query) db modelPtr opts.
Proof.
  intros Hoff. split; [now apply applyGroupBy_off |].
  symmetry. apply ReadPaginated_ext.
  - now apply resolvePage_dropKey.
  - now apply resolvePageSize_dropKey.
  - intros types st. now apply filterLoop_dropKey.
  - intros db1. now apply compose_dropKey_groupby.
Qed.

Lemma filterLoop_dropKey_other (types : gmap string string) (query : Values)
  (key : string) (st : DB * bool) :
  isFilterKey key = false ->
  filterLoop types (dropKey key query) st = filterLoop types query st.
Proof.
  intros Hp. revert st. unfold dropKey.
  induction query as [|[k vs] query IH]; intros st; [reflexivity |].
  cbn [List.filter fst].
  destruct (String.eqb_spec k key) as [->|Hk]; cbn [negb filterLoop].
  - rewrite IH. destruct st as [db inv].
    unfold filterStep. unfold isFilterKey in Hp. now rewrite Hp.
  - destruct (filterStep types st (k, vs)); [apply IH | reflexivity].
Qed.

(** X4.  A parameter that is neither a filter key nor one of [page],
    [pageSize], [search], [preload], [groupby] and [order] has no effect
    at all: the call behaves as on the parameter set without it. *)
Theorem unknown_parameter_is_ignored (h : heap) (query : Values) (db : DB)
  (modelPtr : option T) (opts : Options) (key : string) :
  isFilterKey key = false ->
  ~ In key ["page"; "pageSize"; "search"; "preload"; "groupby"; "order"] ->
  ReadPaginated h query db modelPtr opts
  = ReadPaginated h (dropKey key query) db modelPtr opts.
Proof.
  intros Hfilter Hother. cbn [In] in Hother.
  symmetry. apply ReadPaginated_ext.
  - apply resolvePage_dropKey. intros ->. tauto.
  - apply resolvePageSize_dropKey. intros ->. tauto.
  - intros types st. now apply filterLoop_dropKey_other.
  - intros db1. apply compose_dropKey; intros ->; tauto.
Qed.

(** ** Repeated values *)

Lemma lookupKey_firstValues (query : Values) (key : string) :
  lookupKey (firstValues query) key = take 1 <$> lookupKey query key.
Proof.
  unfold firstValues.
  induction query as [|[k vs] query IH]; cbn; [reflexivity |].
  destruct (String.eqb k key); [reflexivity | exact IH].
Qed.

Lemma Get_firstValues (query : Values) (key : string) :
  Get (firstValues query) key = Get query key.
Proof.
  unfold Get. rewrite lookupKey_firstValues.
  destruct (lookupKey query key) as [[|v rest]|]; reflexivity.
Qed.

Lemma filterLoop_firstValues (types : gmap string string) (query : Values)
  (st : DB * bool) :
  filterLoop types (firstValues query) st = filterLoop types query st.
Proof.
  revert st. unfold firstValues.
  induction query as [|[k vs] query IH]; intros st; [reflexivity |].
  cbn [map filterLoop fst snd].
  replace (filterStep types st (k, take 1 vs))
    with (filterStep types st (k, vs))
    by (destruct st, vs; reflexivity).
  destruct (filterStep types st (k, vs)); [apply IH | reflexivity].
Qed.

(** X5.  Of the values under one key only the first counts, for the
    filters as for every other parameter: the call behaves as on the
    parameter set with each value list cut down to its first value. *)
Theorem only_first_value_counts (h : heap) (query : Values) (db : DB)
  (modelPtr : option T) (opts : Options) :
  ReadPaginated h query db modelPtr opts
  = ReadPaginated h (firstValues query) db modelPtr opts.
Proof.
  symmetry. apply ReadPaginated_ext.
  - unfold resolvePage. now rewrite Get_firstValues.
  - unfold resolvePageSize. now rewrite Get_firstValues.
  - intros types st. apply filterLoop_firstValues.
  - intros db1. unfold compose, applyOrder, applyGroupBy, applyPreload.
    now rewrite !Get_firstValues.
Qed.

(** ** The order of the visit *)

Lemma collectInts_flag (parts : list string) (acc : list Z) (inv : bool) :
  collectInts parts acc inv
  = ((collectInts parts acc false).1, inv || (collectInts parts acc false).2).
Proof.
  revert acc inv. induction parts as [|v parts IH]; intros acc inv; simpl.
  - now rewrite orb_false_r.
  - destruct (Atoi v); [apply IH |].
    rewrite (IH acc true). cbn [fst snd orb]. now rewrite orb_true_r.
Qed.

Lemma collectUUIDs_flag (parts acc : list string) (inv : bool) :
  collectUUIDs parts acc inv
  = ((collectUUIDs parts acc false).1,
     inv || (collectUUIDs parts acc false).2).
Proof.
  revert acc inv. induction parts as [|v parts IH]; intros acc inv; simpl.
  - now rewrite orb_false_r.
  - destruct (uuidParseOk v); [apply IH |].
    rewrite (IH acc true). cbn [fst snd orb]. now rewrite orb_true_r.
Qed.

(** The loop body adds to the handle and to the flag what it adds from the
    empty handle with the flag down. *)
Lemma filterStep_frame (types : gmap string string) (db : DB) (inv : bool)
  (kv : string * list string) :
  filterStep types (db, inv) kv
  = match filterStep types ([], false) kv with
    | Returned st => Returned (db ++ st.1, inv || st.2)
    | Panicked msg => Panicked msg
    end.
Proof.
  destruct kv as [key vals]. unfold filterStep.
  destruct (HasPrefix key "filter[" && HasSuffix key "]");
    [|cbn; now rewrite app_nil_r, orb_false_r].
  destruct (slice key 7 (len key - 1)) as [field|]; [|reflexivity].
  destruct (String.eqb field "");
    [cbn; now rewrite app_nil_r, orb_false_r |].
  destruct vals as [|value rest]; [reflexivity |].
  destruct (Contains value comma).
  - destruct (String.eqb (default "" (types !! field)) "int").
    + rewrite (collectInts_flag _ [] inv).
      destruct (collectInts _ [] false) as [[|i ints] b]; cbn;
        now rewrite ?app_nil_r.
    + destruct (String.eqb (default "" (types !! field)) "uuid").
      * rewrite (collectUUIDs_flag _ [] inv).
        destruct (collectUUIDs _ [] false) as [[|u uuids] b]; cbn;
          now rewrite ?app_nil_r.
      * cbn. now rewrite orb_false_r.
  - destruct (String.eqb (default "" (types !! field)) "int").
    + destruct (Atoi value); cbn;
        now rewrite ?app_nil_r, ?orb_false_r, ?orb_true_r.
    + destruct (String.eqb (default "" (types !! field)) "uuid").
      * destruct (uuidParseOk value); cbn;
          now rewrite ?app_nil_r, ?orb_false_r, ?orb_true_r.
      * cbn. now rewrite orb_false_r.
Qed.

Lemma sameUpToOrder_refl (o : outcome (DB * bool)) : sameUpToOrder o o.
Proof. destruct o as [[db inv]|msg]; cbn; auto. Qed.

Lemma sameUpToOrder_trans (o1 o2 o3 : outcome (DB * bool)) :
  sameUpToOrder o1 o2 -> sameUpToOrder o2 o3 -> sameUpToOrder o1 o3.
Proof.
  destruct o1 as [[db1 i1]|m1], o2 as [[db2 i2]|m2], o3 as [[db3 i3]|m3];
    cbn; try tauto.
  - intros [-> H12] [-> H23]. split; [reflexivity |].
    now apply Permutation_trans with db2.
  - congruence.
Qed.

Lemma filterLoop_related (types : gmap string string) (query : Values)
  (db1 db2 : DB) (inv : bool) :
  Permutation db1 db2 ->
  sameUpToOrder (filterLoop types query (db1, inv))
                (filterLoop types query (db2, inv)).
Proof.
  revert db1 db2 inv.
  induction query as [|kv query IH]; intros db1 db2 inv Hperm;
    cbn [filterLoop].
  - cbn. auto.
  - rewrite (filterStep_frame types db1), (filterStep_frame types db2).
    destruct (filterStep types ([], false) kv) as [[e b]|msg];
      [|reflexivity].
    apply IH. cbn [fst]. now apply Permutation_app_tail.
Qed.

Lemma filterLoop_swap (types : gmap string string) (query : Values)
  (x y : string * list string) (st : DB * bool) :
  sameUpToOrder (filterLoop types (y :: x :: query) st)
                (filterLoop types (x :: y :: query) st).
Proof.
  destruct st as [db inv]. cbn [filterLoop].
  rewrite (filterStep_frame types db inv y), (filterStep_frame types db inv x).
  destruct (filterStep types ([], false) y) as [[ey byy]|my] eqn:Hy,
           (filterStep types ([], false) x) as [[ex bx]|mx] eqn:Hx;
    cbn [fst snd].
  - rewrite (filterStep_frame types _ _ x), (filterStep_frame types _ _ y).
    rewrite Hx, Hy. cbn [fst snd].
    replace (inv || bx || byy) with (inv || byy || bx)
      by (destruct inv, bx, byy; reflexivity).
    apply filterLoop_related.
    rewrite <- !app_assoc. apply Permutation_app_head, Permutation_app_comm.
  - rewrite (filterStep_frame types _ _ x), Hx. reflexivity.
  - rewrite (filterStep_frame types _ _ y), Hy. reflexivity.
  - destruct x as [kx vx], y as [ky vy].
    apply filterStep_panic in Hx as [_ ->].
    apply filterStep_panic in Hy as [_ ->]. reflexivity.
Qed.

Lemma filterLoop_permutation (types : gmap string string)
  (query query' : Values) :
  Permutation query query' ->
  forall st,
    sameUpToOrder (filterLoop types query st) (filterLoop types query' st).
Proof.
  induction 1 as [|kv q q' _ IH|x y q|q1 q2 q3 _ IH12 _ IH23]; intros st.
  - apply sameUpToOrder_refl.
  - cbn [filterLoop].
    destruct (filterStep types st kv) as [st1|msg]; [apply IH | reflexivity].
  - apply filterLoop_swap.
  - eapply sameUpToOrder_trans; eauto.
Qed.

(** The ways a call ends, with what it hands to the engine. *)
Lemma ReadPaginated_cases (h : heap) (query : Values) (db : DB)
  (modelPtr : option T) (opts : Options) :
  let run := ReadPaginated h query db modelPtr opts in
  let loop := filterLoop (effectiveTypes h opts) query (db, false) in
  let pg := resolvePage query opts in
  let ps := resolvePageSize query opts in
  (exists msg, loop = Panicked msg
               /\ result run = Panicked msg /\ issued run = [])
  \/ (exists db1, loop = Returned (db1, true)
        /\ result run
           = Returned ({| Data := Some []; Meta := Some ∅ |},
                       Some ErrInvalidFilter)
        /\ issued run = [])
  \/ (exists db1 c fetch,
        loop = Returned (db1, false)
        /\ c = compose query opts db1
        /\ fetch = c ++ [Limit ps; Offset (GoInt.mul (GoInt.sub pg 1) ps)]
        /\ ((exists e, Count c = Err e
               /\ result run
                  = Returned ({| Data := None; Meta := None |},
                              Some (EngineError e))
               /\ issued run = [ExecCount c])
            \/ (exists n e, Count c = Ok n /\ Find fetch = Err e
                  /\ result run
                     = Returned ({| Data := None; Meta := None |},
                                 Some (EngineError e))
                  /\ issued run = [ExecCount c; ExecFind fetch])
            \/ (exists n rows meta,
                  Count c = Ok n /\ Find fetch = Ok rows
                  /\ paginationMeta n pg ps = Returned meta
                  /\ result run
                     = Returned ({| Data := rows;
                                    Meta := Some {[ "pagination" := meta ]} |},
                                 None)
                  /\ issued run = [ExecCount c; ExecFind fetch]))).
Proof.
  intros run loop pg ps. subst run loop pg ps.
  destruct (filterLoop (effectiveTypes h opts) query (db, false))
    as [[db1 [|]]|msg] eqn:Hloop.
  - right. left. exists db1.
    rewrite (ReadPaginated_invalid _ _ _ _ _ _ Hloop). auto.
  - right. right.
    exists db1, (compose query opts db1). eexists.
    split; [reflexivity |]. split; [reflexivity |]. split; [reflexivity |].
    rewrite (ReadPaginated_valid _ _ _ _ _ _ Hloop).
    unfold PaginateGeneric.
    destruct (Count (compose query opts db1)) as [n|e]; [|left; eauto].
    destruct (Find _) as [rows|e]; [|right; left; eauto 10].
    right. right.
    assert (exists meta,
              paginationMeta n (resolvePage query opts)
                (resolvePageSize query opts) = Returned meta) as [meta Hm].
    { unfold paginationMeta.
      pose proof (resolvePageSize_lower query opts).
      rewrite (proj2 (Z.eqb_neq _ 0)) by lia. eauto. }
    rewrite Hm. eauto 10.
  - left. exists msg.
    rewrite (ReadPaginated_panicked _ _ _ _ _ _ Hloop). auto.
Qed.

(** X6.  The order in which the loop of line 84 visits the parameter set
    does not matter.  On two orders of the same entries the loop ends with
    the same panic, or with the same [invalidFilter] and the same
    conditions on the handle up to their order; and the call panics on the
    one exactly when it panics on the other, and refuses the request with
    [ErrInvalidFilter] on the one exactly when it does on the other. *)
Theorem visiting_order_is_immaterial (h : heap) (query query' : Values)
  (db : DB) (modelPtr : option T) (opts : Options) :
  Permutation query query' ->
  (forall types st,
     sameUpToOrder (filterLoop types query st) (filterLoop types query' st))
  /\ (forall msg,
        result (ReadPaginated h query db modelPtr opts) = Panicked msg
        <-> result (ReadPaginated h query' db modelPtr opts) = Panicked msg)
  /\ (forall r,
        result (ReadPaginated h query db modelPtr opts)
        = Returned (r, Some ErrInvalidFilter)
        <-> result (ReadPaginated h query' db modelPtr opts)
            = Returned (r, Some ErrInvalidFilter)).
Proof.
  intros Hperm.
  assert (forall q q', Permutation q q' ->
            (forall msg,
               result (ReadPaginated h q db modelPtr opts) = Panicked msg ->
               result (ReadPaginated h q' db modelPtr opts) = Panicked msg)
            /\ (forall r,
                  result (ReadPaginated h q db modelPtr opts)
                  = Returned (r, Some ErrInvalidFilter) ->
                  result (ReadPaginated h q' db modelPtr opts)
                  = Returned (r, Some ErrInvalidFilter))) as Hhalf.
  { intros q q' Hqq.
    pose proof (filterLoop_permutation (effectiveTypes h opts) q q' Hqq
                  (db, false)) as Hsame.
    destruct (ReadPaginated_cases h q db modelPtr opts)
      as [(m & Hl & Hr & _)
         | [(d1 & Hl & Hr & _)
           | (d1 & c & f & Hl & _ & _
              & [(e & _ & Hr & _)
                | [(n & e & _ & _ & Hr & _)
                  | (n & rows & meta & _ & _ & _ & Hr & _)]])]];
      destruct (ReadPaginated_cases h q' db modelPtr opts)
        as [(m' & Hl' & Hr' & _)
           | [(d1' & Hl' & Hr' & _)
             | (d1' & c' & f' & Hl' & _ & _
                & [(e' & _ & Hr' & _)
                  | [(n' & e' & _ & _ & Hr' & _)
                    | (n' & rows' & meta' & _ & _ & _ & Hr' & _)]])]];
      rewrite Hl, Hl' in Hsame; cbn in Hsame;
      try contradiction; try (destruct Hsame; discriminate);
      rewrite Hr, Hr'; split; intros ? [=]; subst; reflexivity. }
  split; [intros types st; now apply filterLoop_permutation |].
  destruct (Hhalf query query' Hperm) as [Hp Hi].
  destruct (Hhalf query' query (Permutation_sym Hperm)) as [Hp' Hi'].
  split; [intros msg | intros r]; split; auto.
Qed.

(** ** Where [ErrInvalidFilter] comes from *)

Lemma substring_cut (s : string) (n : nat) :
  (n <= String.length s)%nat ->
  substring 0 n s +:+ substring n (String.length s - n) s = s.
Proof.
  revert n. induction s as [|c s IH]; intros n Hn.
  - destruct n; [reflexivity | cbn in Hn; lia].
  - destruct n as [|n].
    + cbn [substring String.length Nat.sub].
      now rewrite substring_all.
    + cbn in Hn. cbn [substring String.length Nat.sub].
      change (String c (substring 0 n s
                        +:+ substring n (String.length s - n) s)
              = String c s).
      rewrite IH by lia. reflexivity.
Qed.

Lemma substring_skip_add (s t : string) (n m : nat) :
  substring (String.length s + n) m (s +:+ t) = substring n m t.
Proof. induction s as [|c s IH]; [reflexivity | exact IH]. Qed.

Lemma HasPrefix_inv (s prefix : string) :
  HasPrefix s prefix = true -> exists t, s = prefix +:+ t.
Proof.
  unfold HasPrefix. intros H. apply andb_true_iff in H as [Hl He].
  apply Nat.leb_le in Hl. apply String.eqb_eq in He.
  exists (substring (String.length prefix)
                    (String.length s - String.length prefix) s).
  pose proof (substring_cut s (String.length prefix) Hl) as Hcut.
  rewrite He in Hcut. now symmetry.
Qed.

Lemma HasSuffix_inv (s suffix : string) :
  HasSuffix s suffix = true -> exists t, s = t +:+ suffix.
Proof.
  unfold HasSuffix. intros H. apply andb_true_iff in H as [Hl He].
  apply Nat.leb_le in Hl. apply String.eqb_eq in He.
  exists (substring 0 (String.length s - String.length suffix) s).
  pose proof (substring_cut s (String.length s - String.length suffix)
                ltac:(lia)) as Hcut.
  replace (String.length s - (String.length s - String.length suffix))%nat
    with (String.length suffix) in Hcut by lia.
  rewrite He in Hcut. now symmetry.
Qed.

(** A key that the loop takes up is [filter[<field>]] for the field the
    loop reads off it. *)
Lemma key_is_filterKey (key field : string) :
  HasPrefix key "filter[" = true ->
  HasSuffix key "]" = true ->
  slice key 7 (len key - 1) = Some field ->
  key = filterKey field.
Proof.
  intros Hp Hs Hslice.
  destruct (HasPrefix_inv _ _ Hp) as [v ->].
  assert (v <> "") as Hv by (intros ->; discriminate Hs).
  assert (HasSuffix v "]" = true) as Hsv.
  { unfold HasSuffix in *. rewrite length_append in Hs.
    change (String.length "filter[") with 7%nat in Hs.
    change (String.length "]") with 1%nat in *.
    assert (1 <= String.length v)%nat as Hlen
      by (destruct v; [contradiction | cbn; lia]).
    replace (7 + String.length v - 1)%nat
      with (String.length "filter[" + (String.length v - 1))%nat in Hs
      by (cbn; lia).
    rewrite substring_skip_add in Hs.
    apply andb_true_iff in Hs as [_ Hs]. rewrite Hs.
    rewrite andb_true_r. now apply Nat.leb_le. }
  destruct (HasSuffix_inv _ _ Hsv) as [w ->].
  fold (filterKey w) in Hslice. rewrite filterKey_slice in Hslice.
  now injection Hslice as ->.
Qed.

Lemma collectInts_flag_inv (parts : list string) (acc : list Z) :
  (collectInts parts acc false).2 = true ->
  exists part, In part parts /\ Atoi part = None.
Proof.
  revert acc. induction parts as [|v parts IH]; intros acc; simpl;
    [discriminate |].
  destruct (Atoi v) eqn:Hv; [|eauto].
  intros H. destruct (IH _ H) as (part & Hin & Hbad). eauto.
Qed.

Lemma collectUUIDs_flag_inv (parts acc : list string) :
  (collectUUIDs parts acc false).2 = true ->
  exists part, In part parts /\ uuidParseOk part = false.
Proof.
  revert acc. induction parts as [|v parts IH]; intros acc; simpl;
    [discriminate |].
  destruct (uuidParseOk v) eqn:Hv; [|eauto].
  intros H. destruct (IH _ H) as (part & Hin & Hbad). eauto.
Qed.

(** The loop body raises [invalidFilter] only for a part that fails its
    coercion. *)
Lemma filterStep_flag_inv (types : gmap string string) (db db' : DB)
  (key : string) (vals : list string) :
  filterStep types (db, false) (key, vals) = Returned (db', true) ->
  exists field value rest part,
    key = filterKey field /\ field <> "" /\ vals = value :: rest
    /\ In part (filterParts value)
    /\ failsCoercion (declaredType types field) part.
Proof.
  unfold filterStep.
  destruct (HasPrefix key "filter[") eqn:Hp; [|intros ?; discriminate].
  destruct (HasSuffix key "]") eqn:Hs; [|intros ?; discriminate].
  cbn [andb].
  destruct (slice key 7 (len key - 1)) as [field|] eqn:Hslice;
    [|intros ?; discriminate].
  apply (key_is_filterKey key field Hp Hs) in Hslice as ->.
  destruct (String.eqb_spec field "") as [|Hfield]; [intros ?; discriminate |].
  destruct vals as [|value rest]; [intros ?; discriminate |].
  intros Hstep. exists field, value, rest.
  unfold filterParts, failsCoercion, declaredType. revert Hstep.
  destruct (Contains value comma).
  - destruct (String.eqb_spec (default "" (types !! field)) "int")
      as [Hint|_].
    + destruct (collectInts _ [] false) as [ints b] eqn:Hc.
      assert (b = true -> exists part,
                In part (map TrimSpace (Split value comma))
                /\ Atoi part = None) as Hinv.
      { intros ->. apply (collectInts_flag_inv _ []). now rewrite Hc. }
      destruct ints; intros [= _ Hb]; destruct (Hinv Hb) as (part & ? & ?);
        exists part; repeat split; auto.
    + destruct (String.eqb_spec (default "" (types !! field)) "uuid")
        as [Huuid|_]; [|intros ?; discriminate].
      destruct (collectUUIDs _ [] false) as [uuids b] eqn:Hc.
      assert (b = true -> exists part,
                In part (map TrimSpace (Split value comma))
                /\ uuidParseOk part = false) as Hinv.
      { intros ->. apply (collectUUIDs_flag_inv _ []). now rewrite Hc. }
      destruct uuids; intros [= _ Hb]; destruct (Hinv Hb) as (part & ? & ?);
        exists part; repeat split; auto.
  - destruct (String.eqb_spec (default "" (types !! field)) "int")
      as [Hint|_].
    + destruct (Atoi value) eqn:Hv; [intros ?; discriminate |].
      intros _. exists value. cbn. repeat split; auto.
    + destruct (String.eqb_spec (default "" (types !! field)) "uuid")
        as [Huuid|_]; [|intros ?; discriminate].
      destruct (uuidParseOk value) eqn:Hv; [intros ?; discriminate |].
      intros _. exists value. cbn. repeat split; auto.
Qed.

Lemma filterLoop_flag_inv (types : gmap string string) (query : Values)
  (db db' : DB) :
  filterLoop types query (db, false) = Returned (db', true) ->
  exists field value rest part,
    field <> "" /\ In (filterKey field, value :: rest) query
    /\ In part (filterParts value)
    /\ failsCoercion (declaredType types field) part.
Proof.
  revert db. induction query as [|[key vals] query IH]; intros db;
    cbn [filterLoop]; [intros ?; discriminate |].
  destruct (filterStep types (db, false) (key, vals)) as [[db1 [|]]|]
    eqn:Hstep; [| |intros ?; discriminate].
  - intros _.
    destruct (filterStep_flag_inv _ _ _ _ _ Hstep)
      as (field & value & rest & part & -> & Hf & -> & Hin & Hbad).
    exists field, value, rest, part. cbn. repeat split; auto.
  - intros Hloop.
    destruct (IH _ Hloop) as (field & value & rest & part & Hf & He & Hin & Hb).
    exists field, value, rest, part. cbn. repeat split; auto.
Qed.

(** X7.  [ErrInvalidFilter] is returned for a cause only: when a call
    returns it, the parameter set holds an entry [filter[<field>]] whose
    first value, or one of its trimmed pieces, fails the coercion of the
    field's declared [int] or [uuid] type.  A request whose filters are all
    on fields of other types is never refused. *)
Theorem invalid_filter_has_a_cause (h : heap) (query : Values) (db : DB)
  (modelPtr : option T) (opts : Options) (r : Result T) :
  result (ReadPaginated h query db modelPtr opts)
  = Returned (r, Some ErrInvalidFilter) ->
  exists field value rest part,
    field <> ""
    /\ In (filterKey field, value :: rest) query
    /\ In part (filterParts value)
    /\ failsCoercion (declaredType (effectiveTypes h opts) field) part.
Proof.
  destruct (ReadPaginated_cases h query db modelPtr opts)
    as [(m & _ & -> & _)
       | [(d1 & Hl & _ & _)
         | (d1 & c & f & _ & _ & _
            & [(e & _ & -> & _)
              | [(n & e & _ & _ & -> & _)
                | (n & rows & meta & _ & _ & _ & -> & _)]])]];
    try (intros ?; discriminate).
  intros _. now apply filterLoop_flag_inv with db d1.
Qed.

(** ** What the engine is asked, and what comes back *)

(** X8.  An error of the engine is returned as it is, with a [Result]
    whose [Data] and [Meta] are nil.  When the count fails the fetch is
    never run; when the fetch fails both queries have been run.  The call
    is one whose filters pass. *)
Theorem engine_errors_propagate (h : heap) (query : Values) (db db1 : DB)
  (modelPtr : option T) (opts : Options) :
  filterLoop (effectiveTypes h opts) query (db, false)
  = Returned (db1, false) ->
  let run := ReadPaginated h query db modelPtr opts in
  let c := compose query opts db1 in
  let fetch :=
    c ++ [Limit (resolvePageSize query opts);
          Offset (GoInt.mul (GoInt.sub (resolvePage query opts) 1)
                            (resolvePageSize query opts))] in
  (forall e, Count c = Err e ->
     result run
     = Returned ({| Data := None; Meta := None |}, Some (EngineError e))
     /\ issued run = [ExecCount c])
  /\ (forall n e, Count c = Ok n -> Find fetch = Err e ->
        result run
        = Returned ({| Data := None; Meta := None |}, Some (EngineError e))
        /\ issued run = [ExecCount c; ExecFind fetch]).
Proof.
  intros Hloop run c fetch. subst run c fetch.
  destruct (ReadPaginated_cases h query db modelPtr opts)
    as [(m & Hl & _)
       | [(d1 & Hl & _)
         | (d1 & c & f & Hl & -> & -> & Hcases)]];
    rewrite Hloop in Hl; try discriminate.
  injection Hl as <-.
  destruct Hcases
    as [(e' & Hc & Hr & Hi)
       | [(n' & e' & Hc & Hf & Hr & Hi)
         | (n' & rows & meta & Hc & Hf & _ & Hr & Hi)]];
    split; intros; try congruence.
  - replace e with e' by congruence. auto.
  - replace e with e' by congruence. auto.
Qed.

(** X9.  When the filters pass and the engine answers both queries, the
    call returns without error the rows of the fetch as [Data], and in
    [Meta] the one key [pagination], whose map gives back the page and the
    page size in use and the total of the count. *)
Theorem success_assembles_result (h : heap) (query : Values) (db db1 : DB)
  (modelPtr : option T) (opts : Options) (n : Z) (rows : option (list T)) :
  filterLoop (effectiveTypes h opts) query (db, false)
  = Returned (db1, false) ->
  Count (compose query opts db1) = Ok n ->
  Find (compose query opts db1
        ++ [Limit (resolvePageSize query opts);
            Offset (GoInt.mul (GoInt.sub (resolvePage query opts) 1)
                              (resolvePageSize query opts))])
  = Ok rows ->
  exists meta,
    result (ReadPaginated h query db modelPtr opts)
    = Returned ({| Data := rows;
                   Meta := Some {[ "pagination" := meta ]} |}, None)
    /\ page meta = resolvePage query opts
    /\ pageSize meta = resolvePageSize query opts
    /\ total meta = n.
Proof.
  intros Hloop Hcount Hfind.
  destruct (ReadPaginated_cases h query db modelPtr opts)
    as [(m & Hl & _)
       | [(d1 & Hl & _)
         | (d1 & c & f & Hl & -> & -> & Hcases)]];
    rewrite Hloop in Hl; try discriminate.
  injection Hl as <-.
  destruct Hcases
    as [(e' & Hc & _)
       | [(n' & e' & Hc & Hf & _)
         | (n' & rows' & meta & Hc & Hf & Hm & Hr & _)]];
    try congruence.
  exists meta. rewrite Hr.
  replace rows' with rows by congruence.
  replace n' with n in Hm by congruence.
  split; [reflexivity |].
  unfold paginationMeta in Hm.
  destruct (resolvePageSize query opts =? 0); [discriminate |].
  injection Hm as <-. auto.
Qed.

(** X10.  A call that returns does so in one of three ways: without error
    and with the [pagination] key in [Meta], after two queries; with
    [ErrInvalidFilter], an empty [Data] slice and an empty [Meta] map,
    after no query; or with an error of the engine and nil [Data] and
    [Meta].  An error never comes with rows or with pagination. *)
Theorem error_comes_with_an_empty_result (h : heap) (query : Values)
  (db : DB) (modelPtr : option T) (opts : Options) (r : Result T)
  (err : option (error E)) :
  result (ReadPaginated h query db modelPtr opts) = Returned (r, err) ->
  (err = None
   /\ (exists meta, Meta r = Some {[ "pagination" := meta ]})
   /\ length (issued (ReadPaginated h query db modelPtr opts)) = 2%nat)
  \/ (err = Some ErrInvalidFilter
      /\ Data r = Some [] /\ Meta r = Some ∅
      /\ issued (ReadPaginated h query db modelPtr opts) = [])
  \/ (exists e, err = Some (EngineError e)
                /\ Data r = None /\ Meta r = None).
Proof.
  destruct (ReadPaginated_cases h query db modelPtr opts)
    as [(m & _ & -> & _)
       | [(d1 & _ & -> & Hi)
         | (d1 & c & f & _ & _ & _
            & [(e & _ & -> & _)
              | [(n & e & _ & _ & -> & _)
                | (n & rows & meta & _ & _ & _ & -> & Hi)]])]];
    intros [= <- <-]; cbn [Data Meta].
  - right. left. auto.
  - right. right. eauto.
  - right. right. eauto.
  - left. rewrite Hi. eauto.
Qed.

Lemma applyPreload_extends (query : Values) (opts : Options) (db : DB) :
  exists names, applyPreload query opts db = db ++ map Preload names.
Proof.
  unfold applyPreload.
  destruct (negb _);
    [rewrite preload_query_loop | rewrite preload_default_loop]; eauto.
Qed.

Lemma compose_adds_no_window (query : Values) (opts : Options) (db : DB) :
  exists added,
    compose query opts db = db ++ added
    /\ Forall (fun c => isWindow c = false) added.
Proof.
  destruct (compose_shape query opts db) as (search & group & -> & Hs & Hg).
  destruct (applyPreload_extends query opts db) as [names ->].
  exists (map Preload names ++ search ++ group
          ++ [Order (orderExpr query opts)]).
  split; [now rewrite <- !app_assoc |].
  repeat apply Forall_app_2.
  - apply Forall_forall. intros c Hc.
    apply list_elem_of_In, in_map_iff in Hc as (name & <- & _). reflexivity.
  - eapply Forall_impl; [exact Hs |]. now intros c (q & a & ->).
  - destruct Hg as [(_ & _ & s & g & ->) | (_ & ->)];
      repeat constructor.
  - repeat constructor.
Qed.

(** X11.  The call hands the engine no query, or a count, or a count and
    then a fetch, never more.  The handle of the count is the caller's
    handle with clauses added behind it, none of them a limit or an
    offset; the handle of the fetch is that of the count with the limit,
    at least 1, and the offset behind it. *)
Theorem queries_handed_to_the_engine (h : heap) (query : Values) (db : DB)
  (modelPtr : option T) (opts : Options) :
  let run := ReadPaginated h query db modelPtr opts in
  let ps := resolvePageSize query opts in
  let off := GoInt.mul (GoInt.sub (resolvePage query opts) 1) ps in
  issued run = []
  \/ exists added,
       Forall (fun c => isWindow c = false) added
       /\ 1 <= ps
       /\ (issued run = [ExecCount (db ++ added)]
           \/ issued run
              = [ExecCount (db ++ added);
                 ExecFind ((db ++ added) ++ [Limit ps; Offset off])]).
Proof.
  intros run ps off. subst run ps off.
  destruct (ReadPaginated_cases h query db modelPtr opts)
    as [(m & _ & _ & Hi)
       | [(d1 & _ & _ & Hi)
         | (d1 & c & f & Hl & -> & -> & Hcases)]]; [now left | now left |].
  right.
  destruct (filterLoop_wheres _ _ _ _ Hl) as (wheres & Hd1 & Hw).
  cbn [fst] in Hd1. subst d1.
  destruct (compose_adds_no_window query opts (db ++ wheres))
    as (added & Hc & Hadded).
  rewrite Hc in Hcases.
  exists (wheres ++ added). rewrite app_assoc.
  split.
  { apply Forall_app_2; [|exact Hadded].
    eapply Forall_impl; [exact Hw |]. now intros c (q & a & ->). }
  split; [apply resolvePageSize_lower |].
  destruct Hcases
    as [(e & _ & _ & ->)
       | [(n & e & _ & _ & _ & ->)
         | (n & rows & meta & _ & _ & _ & _ & ->)]]; auto.
Qed.

(** ** The field types in force *)

Lemma mergeDefaults_caller_map (h : heap) (opts : Options) (l : loc)
  (m : gmap string string) :
  DefaultFieldTypes opts = Some l ->
  h !! l = Some m ->
  (mergeDefaults h opts).1 !! l = Some (m ∪ list_to_map defaultAllowed)
  /\ (mergeDefaults h opts).2 = l.
Proof.
  intros Hsome Hl. unfold mergeDefaults. rewrite Hsome. cbn [fst snd].
  split; [|reflexivity].
  apply (foldl_mergeOne l defaultAllowed).
  rewrite lookup_insert_ne; [exact Hl |].
  intros Heq. apply (fresh_not_allocated h l); eauto.
Qed.

Lemma builtin_types (field : string) :
  declaredType (list_to_map defaultAllowed) field
  = if String.eqb field "id" then "uuid"
    else if String.eqb field "status" then "string"
    else if String.eqb field "jumlah" then "int"
    else if String.eqb field "gudang_id" then "uuid"
    else "".
Proof.
  unfold declaredType, defaultAllowed. rewrite !list_to_map_cons.
  destruct (String.eqb_spec field "id") as [->|H1]; [reflexivity |].
  rewrite lookup_insert_ne by congruence.
  destruct (String.eqb_spec field "status") as [->|H2]; [reflexivity |].
  rewrite lookup_insert_ne by congruence.
  destruct (String.eqb_spec field "jumlah") as [->|H3]; [reflexivity |].
  rewrite lookup_insert_ne by congruence.
  destruct (String.eqb_spec field "gudang_id") as [->|H4]; [reflexivity |].
  rewrite lookup_insert_ne by congruence.
  reflexivity.
Qed.

(** X13.  The type in force for a field is the one the caller declares for
    it, when the caller's map has the field; otherwise the built-in one
    ([uuid] for [id] and [gudang_id], [int] for [jumlah], [string] for
    [status]); otherwise the empty tag, which the loop treats as a string.
    With a nil map only the built-in types are in force. *)
Theorem caller_types_take_precedence (h : heap) (opts : Options)
  (field : string) :
  let builtin :=
    if String.eqb field "id" then "uuid"
    else if String.eqb field "status" then "string"
    else if String.eqb field "jumlah" then "int"
    else if String.eqb field "gudang_id" then "uuid"
    else "" in
  (DefaultFieldTypes opts = None ->
   declaredType (effectiveTypes h opts) field = builtin)
  /\ (forall l m, DefaultFieldTypes opts = Some l -> h !! l = Some m ->
        declaredType (effectiveTypes h opts) field
        = match m !! field with Some ty => ty | None => builtin end).
Proof.
  intros builtin. subst builtin. rewrite <- builtin_types. split.
  - intros Hnil. unfold effectiveTypes, mergeDefaults. rewrite Hnil.
    cbn [fst snd]. now rewrite lookup_insert_eq.
  - intros l m Hsome Hl. unfold effectiveTypes.
    destruct (mergeDefaults_caller_map h opts l m Hsome Hl) as [H1 H2].
    rewrite H2, H1. cbn [from_option id]. unfold declaredType. rewrite lookup_union.
    destruct (m !! field), (list_to_map defaultAllowed !! field);
      reflexivity.
Qed.

(** X16.  Once a call has merged the built-in types into the caller's map,
    a further call with the same options, on any request, leaves that map
    as it found it. *)
Theorem merge_is_idempotent (h : heap) (query query' : Values)
  (db db' : DB) (modelPtr modelPtr' : option T) (opts : Options) (l : loc)
  (m : gmap string string) :
  DefaultFieldTypes opts = Some l ->
  h !! l = Some m ->
  heap_after
    (ReadPaginated (heap_after (ReadPaginated h query db modelPtr opts))
       query' db' modelPtr' opts) !! l
  = heap_after (ReadPaginated h query db modelPtr opts) !! l.
Proof.
  intros Hsome Hl. rewrite !ReadPaginated_heap.
  destruct (mergeDefaults_caller_map h opts l m Hsome Hl) as [Hfirst _].
  destruct (mergeDefaults_caller_map _ opts l _ Hsome Hfirst) as [-> _].
  rewrite Hfirst. f_equal.
  rewrite <- (assoc_L (∪)). f_equal.
Qed.

(** ** The paginator *)

(** X17.  As long as [total + pageSize - 1] fits an [int64], the page
    count is the least number of pages that hold the rows, [hasNext] says
    that rows are left behind the page, and [hasPrev] that the page is not
    the first and there are rows at all. *)
Theorem page_count_and_flags (total page pageSize : Z) :
  0 <= total -> 1 <= pageSize ->
  total + pageSize - 1 <= GoInt.maxInt64 ->
  exists meta,
    paginationMeta total page pageSize = Returned meta
    /\ (pageCount meta - 1) * pageSize < total <= pageCount meta * pageSize
    /\ (hasNext meta = true <-> page * pageSize < total)
    /\ (hasPrev meta = true <-> 1 < page /\ 0 < total).
Proof.
  intros Ht Hp Hfit.
  destruct (paginationMeta_exact total page pageSize Ht Hp Hfit)
    as (meta & Hm & Hcount & Hnext & Hprev).
  pose proof (ceilDiv_bounds total pageSize ltac:(lia)) as Hb.
  exists meta. split; [exact Hm |]. rewrite Hcount, Hnext, Hprev.
  split; [exact Hb |]. split.
  - rewrite Z.ltb_lt. split; intros; nia.
  - rewrite andb_true_iff, !Z.ltb_lt. split; intros; nia.
Qed.

(** X18.  [PaginateGeneric] called with a page size of zero runs the count
    and the fetch and then panics on the division of line 247; an error of
    the engine is returned before that.  With any other page size it
    returns. *)
Theorem zero_page_size_panics (db : DB) (modelPtr : option T)
  (page pageSize : Z) :
  (pageSize = 0 ->
   (forall n rows,
      Count db = Ok n -> Find (db ++ [Limit 0; Offset 0]) = Ok rows ->
      PaginateGeneric db modelPtr page pageSize
      = ([ExecCount db; ExecFind (db ++ [Limit 0; Offset 0])],
         Panicked "integer divide by zero"))
   /\ (forall e, Count db = Err e ->
         PaginateGeneric db modelPtr page pageSize
         = ([ExecCount db], Returned (Err e))))
  /\ (pageSize <> 0 ->
      exists ex r,
        PaginateGeneric db modelPtr page pageSize = (ex, Returned r)).
Proof.
  split; [|apply PaginateGeneric_returns].
  intros ->. unfold PaginateGeneric.
  replace (GoInt.mul (GoInt.sub page 1) 0) with 0
    by (unfold GoInt.mul; now rewrite Z.mul_0_r).
  split.
  - intros n rows -> ->. reflexivity.
  - now intros e ->.
Qed.

(** ** Filters that pass *)

Lemma filterKey_inj (field field' : string) :
  filterKey field = filterKey field' -> field = field'.
Proof.
  intros Heq. pose proof (filterKey_slice field) as Hs.
  rewrite Heq, filterKey_slice in Hs. now injection Hs.
Qed.

Lemma filterLoop_dropKey_empty_field (types : gmap string string)
  (query : Values) (st : DB * bool) :
  filterLoop types (dropKey "filter[]" query) st = filterLoop types query st.
Proof.
  revert st. unfold dropKey.
  induction query as [|[k vs] query IH]; intros st; [reflexivity |].
  cbn [List.filter fst].
  destruct (String.eqb_spec k "filter[]") as [->|Hk]; cbn [negb filterLoop].
  - rewrite IH. now destruct st as [db inv].
  - destruct (filterStep types st (k, vs)); [apply IH | reflexivity].
Qed.

(** X20.  The key [filter[]], with no field between the brackets, is
    passed over whatever its values, an empty value list included: the
    call behaves as on the parameter set without it. *)
Theorem empty_field_filter_is_ignored (h : heap) (query : Values) (db : DB)
  (modelPtr : option T) (opts : Options) :
  ReadPaginated h query db modelPtr opts
  = ReadPaginated h (dropKey "filter[]" query) db modelPtr opts.
Proof.
  symmetry. apply ReadPaginated_ext.
  - now apply resolvePage_dropKey.
  - now apply resolvePageSize_dropKey.
  - intros types st. apply filterLoop_dropKey_empty_field.
  - intros db1. now apply compose_dropKey.
Qed.

(** ** Requests whose filters pass *)

(** The loop body panics on a key [filter[<field>]] with a field and no
    value, and on nothing else. *)
Lemma filterStep_panic_inv (types : gmap string string) (st : DB * bool)
  (key : string) (vals : list string) (msg : string) :
  filterStep types st (key, vals) = Panicked msg ->
  exists field, field <> "" /\ key = filterKey field /\ vals = [].
Proof.
  destruct st as [db inv]. unfold filterStep.
  destruct (HasPrefix key "filter[") eqn:Hp; [|intros ?; discriminate].
  destruct (HasSuffix key "]") eqn:Hs; [|intros ?; discriminate].
  cbn [andb].
  destruct (slice key 7 (len key - 1)) as [field|] eqn:Hslice.
  2:{ destruct (slice_in_bounds key Hp Hs) as [f Hf]. congruence. }
  apply (key_is_filterKey key field Hp Hs) in Hslice as ->.
  destruct (String.eqb_spec field "") as [|Hfield];
    [intros ?; discriminate |].
  destruct vals as [|value rest]; [eauto |].
  intros H. exfalso. revert H. repeat case_match; discriminate.
Qed.

Lemma noEmptyFilter_tail (kv : string * list string) (query : Values) :
  noEmptyFilter (kv :: query) -> noEmptyFilter query.
Proof. intros Hnef field Hf Hin. apply (Hnef field Hf). now right. Qed.

Lemma filterLoop_returns (types : gmap string string) (query : Values)
  (st : DB * bool) :
  noEmptyFilter query -> exists st', filterLoop types query st = Returned st'.
Proof.
  revert st. induction query as [|[key vals] query IH]; intros st Hnef;
    cbn [filterLoop]; [eauto |].
  destruct (filterStep types st (key, vals)) as [st1|msg] eqn:Hstep.
  - apply IH. now apply noEmptyFilter_tail with (key, vals).
  - apply filterStep_panic_inv in Hstep as (field & Hf & -> & ->).
    destruct (Hnef field Hf). now left.
Qed.

Lemma filterLoop_raises (types : gmap string string) (query : Values)
  (db : DB) (inv : bool) (field value part : string) (rest : list string) :
  noEmptyFilter query ->
  field <> "" ->
  In (filterKey field, value :: rest) query ->
  In part (filterParts value) ->
  failsCoercion (declaredType types field) part ->
  exists db', filterLoop types query (db, inv) = Returned (db', true).
Proof.
  intros Hnef Hfield Hentry Hin Hbad. revert db inv.
  induction query as [|[key vals] query IH]; intros db inv;
    cbn [filterLoop In] in *; [contradiction |].
  pose proof (noEmptyFilter_tail _ _ Hnef) as Hnef'.
  destruct Hentry as [[= -> ->] | Hentry].
  - destruct (filterStep_invalid types db inv field value part rest)
      as [db1 ->]; auto.
    destruct (filterLoop_returns types query (db1, true) Hnef')
      as [[db2 inv2] Hloop].
    rewrite Hloop. apply filterLoop_sticky in Hloop as ->. eauto.
  - destruct (filterStep types (db, inv) (key, vals)) as [[db1 inv1]|msg]
      eqn:Hstep; [now apply IH |].
    apply filterStep_panic_inv in Hstep as (f & Hf & -> & ->).
    destruct (Hnef f Hf). now left.
Qed.

(** The filters of a request pass exactly when the loop ends with
    [invalidFilter] down. *)
Lemma filtersPass_iff (h : heap) (opts : Options) (query : Values)
  (db : DB) :
  filtersPass h opts query
  <-> exists db1,
        filterLoop (effectiveTypes h opts) query (db, false)
        = Returned (db1, false).
Proof.
  split.
  - intros [Hnef Hvalid].
    destruct (filterLoop_returns (effectiveTypes h opts) query (db, false)
                Hnef) as [[db1 [|]] Hloop]; [|eauto].
    destruct (filterLoop_flag_inv _ _ _ _ Hloop)
      as (f & v & r & p & Hf & He & Hin & Hbad).
    now destruct (Hvalid f v r p).
  - intros [db1 Hloop].
    assert (noEmptyFilter query) as Hnef.
    { intros field Hf Hin.
      rewrite (filterLoop_panics _ _ _ field Hf Hin) in Hloop.
      discriminate. }
    split; [exact Hnef |].
    intros field value rest part Hf He Hin Hbad.
    destruct (filterLoop_raises (effectiveTypes h opts) query db false
                field value part rest Hnef Hf He Hin Hbad) as [db' H'].
    rewrite Hloop in H'. discriminate.
Qed.

(** A request whose filters pass has its count run, on the composed handle
    over the one the loop ends with. *)
Lemma passing_request (h : heap) (query : Values) (db : DB)
  (modelPtr : option T) (opts : Options) :
  filtersPass h opts query ->
  exists db1 more,
    filterLoop (effectiveTypes h opts) query (db, false)
    = Returned (db1, false)
    /\ issued (ReadPaginated h query db modelPtr opts)
       = ExecCount (compose query opts db1) :: more.
Proof.
  intros Hpass. apply (filtersPass_iff h opts query db) in Hpass as [db1 Hl].
  destruct (ReadPaginated_counts _ _ _ _ modelPtr _ Hl) as [more Hi].
  eauto.
Qed.

(** C1, as the code has it.  In a parameter set where no key
    [filter[<field>]] comes with an empty value list, when the first value
    of a filter entry, or some trimmed piece of it when it holds a comma,
    fails the coercion of the field's declared [int] or [uuid] type,
    [ReadPaginated] returns [ErrInvalidFilter] with an empty [Data] slice
    and an empty [Meta] map, and hands no query to the engine: none of the
    conditions built by the loop is applied.  The other entries and the
    other pieces are arbitrary, and so are the value lists of the keys
    that are no filter keys. *)
Theorem C1_invalid_filter_aborts (h : heap) (query : Values) (db : DB)
  (modelPtr : option T) (opts : Options) (field value part : string)
  (rest : list string) :
  noEmptyFilter query ->
  field <> "" ->
  In (filterKey field, value :: rest) query ->
  In part (filterParts value) ->
  failsCoercion (declaredType (effectiveTypes h opts) field) part ->
  result (ReadPaginated h query db modelPtr opts)
  = Returned ({| Data := Some []; Meta := Some ∅ |}, Some ErrInvalidFilter)
  /\ issued (ReadPaginated h query db modelPtr opts) = [].
Proof.
  intros Hnef Hfield Hentry Hpart Hbad.
  destruct (filterLoop_raises (effectiveTypes h opts) query db false
              field value part rest Hnef Hfield Hentry Hpart Hbad)
    as [db1 Hloop].
  rewrite (ReadPaginated_invalid _ _ _ _ _ _ Hloop). split; reflexivity.
Qed.

(** ** The condition of a filter entry, up to the engine *)

Lemma conditionOfEntry_intro (h : heap) (query : Values) (db : DB)
  (modelPtr : option T) (opts : Options) (kv : string * list string)
  (cond : clause) :
  In kv query ->
  (forall db0 inv,
     filterStep (effectiveTypes h opts) (db0, inv) kv
     = Returned (db0 ++ [cond], inv)) ->
  conditionOfEntry h query db modelPtr opts kv cond.
Proof.
  intros Hkv Hemit.
  assert (forall st0,
            filterStep (effectiveTypes h opts) st0 kv
            = Returned (st0.1 ++ [cond], st0.2)) as Hemit'
    by (intros [db0 inv]; apply Hemit).
  split; [exact Hemit |]. split.
  - intros db1 inv Hloop.
    exact (filterLoop_emits _ _ _ _ _ _ Hkv Hemit' Hloop).
  - intros Hpass.
    destruct (passing_request h query db modelPtr opts Hpass)
      as (db1 & more & Hloop & Hi).
    exists db1, more. split; [exact Hloop |]. split.
    + exact (filterLoop_emits _ _ _ _ _ _ Hkv Hemit' Hloop).
    + split; [exact Hi |]. intros x Hx.
      now apply (emitted_condition_reaches_engine h query db modelPtr opts
                   kv cond x).
Qed.

(** C5.  For an entry [filter[<field>]] of the parameter set, the
    condition the call makes of it is, for a first value without comma
    that is valid for the declared type, [<field> = ?] on the one coerced
    value (the integer for [int], the string itself otherwise); for a first
    value with commas whose trimmed pieces are all valid, [<field> IN ?]
    on all the coerced pieces in their order.  The loop body appends that
    condition, the loop ends with it on the handle, and a call whose
    filters pass runs its count and its fetch with it. *)
Theorem C5_filter_conditions (h : heap) (query : Values) (db : DB)
  (modelPtr : option T) (opts : Options) (field value : string)
  (rest : list string) :
  field <> "" ->
  In (filterKey field, value :: rest) query ->
  let ty := declaredType (effectiveTypes h opts) field in
  let parts := map TrimSpace (Split value comma) in
  let made :=
    conditionOfEntry h query db modelPtr opts
      (filterKey field, value :: rest) in
  (Contains value comma = false ->
     (forall iv, ty = "int" -> Atoi value = Some iv ->
        made (Where (field +:+ " = ?") (ArgInt iv)))
     /\ (ty = "uuid" -> uuidParseOk value = true ->
        made (Where (field +:+ " = ?") (ArgString value)))
     /\ (ty <> "int" -> ty <> "uuid" ->
        made (Where (field +:+ " = ?") (ArgString value))))
  /\ (Contains value comma = true ->
     (forall ints, ty = "int" ->
        Forall2 (fun p i => Atoi p = Some i) parts ints ->
        made (Where (field +:+ " IN ?") (ArgInts ints)))
     /\ (ty = "uuid" -> Forall (fun p => uuidParseOk p = true) parts ->
        made (Where (field +:+ " IN ?") (ArgStrings parts)))
     /\ (ty <> "int" -> ty <> "uuid" ->
        made (Where (field +:+ " IN ?") (ArgStrings parts)))).
Proof.
  intros Hfield Hentry ty parts made. subst ty parts made.
  assert (forall cond,
            (forall db0 inv,
               filterStep (effectiveTypes h opts) (db0, inv)
                 (filterKey field, value :: rest)
               = Returned (db0 ++ [cond], inv)) ->
            conditionOfEntry h query db modelPtr opts
              (filterKey field, value :: rest) cond) as Hmade
    by (intros cond; now apply conditionOfEntry_intro).
  pose proof (fun db0 inv =>
                filterStep_conditions (effectiveTypes h opts) db0 inv
                  field value rest Hfield) as Hstep.
  cbv zeta in Hstep.
  split; intros Hcomma; (split; [|split]).
  - intros iv Hty Hok. apply Hmade. intros db0 inv.
    now apply (proj1 (proj1 (Hstep db0 inv) Hcomma)).
  - intros Hty Hok. apply Hmade. intros db0 inv.
    now apply (proj1 (proj2 (proj1 (Hstep db0 inv) Hcomma))).
  - intros Hint Huuid. apply Hmade. intros db0 inv.
    now apply (proj2 (proj2 (proj1 (Hstep db0 inv) Hcomma))).
  - intros ints Hty Hok. apply Hmade. intros db0 inv.
    now apply (proj1 (proj2 (Hstep db0 inv) Hcomma)).
  - intros Hty Hok. apply Hmade. intros db0 inv.
    now apply (proj1 (proj2 (proj2 (Hstep db0 inv) Hcomma))).
  - intros Hint Huuid. apply Hmade. intros db0 inv.
    now apply (proj2 (proj2 (proj2 (Hstep db0 inv) Hcomma))).
Qed.

(** ** The composer, up to the engine *)

(** C6.  With a non-empty [preload] parameter the relations requested are
    the names in it, trimmed, in their order, and none of the configured
    defaults; with no [preload] parameter they are the configured defaults.
    This holds of the preload step and of every query the call hands to the
    engine (over what the caller's handle already asked for), and a call
    whose filters pass does run its count with these preloads. *)
Theorem C6_preload_replaces_defaults (h : heap) (query : Values) (db : DB)
  (modelPtr : option T) (opts : Options) :
  let run := ReadPaginated h query db modelPtr opts in
  let requests names :=
    applyPreload query opts db = db ++ map Preload names
    /\ (forall x, In x (issued run) ->
          preloads (handle x) = preloads db ++ names)
    /\ (filtersPass h opts query ->
        exists c more,
          issued run = ExecCount c :: more
          /\ preloads c = preloads db ++ names) in
  (Get query "preload" <> "" -> requests (namesOf (Get query "preload")))
  /\ (lookupKey query "preload" = None -> requests (PreloadFields opts)).
Proof.
  intros run requests. subst run requests. cbv beta.
  destruct (preload_step_and_queries h query db modelPtr opts)
    as [Hquery Hdefault].
  assert (forall names,
            (forall x,
               In x (issued (ReadPaginated h query db modelPtr opts)) ->
               preloads (handle x) = preloads db ++ names) ->
            filtersPass h opts query ->
            exists c more,
              issued (ReadPaginated h query db modelPtr opts)
              = ExecCount c :: more
              /\ preloads c = preloads db ++ names) as Hcount.
  { intros names Hall Hpass.
    destruct (passing_request h query db modelPtr opts Hpass)
      as (db1 & more & _ & Hi).
    exists (compose query opts db1), more. split; [exact Hi |].
    apply (Hall (ExecCount (compose query opts db1))).
    rewrite Hi. now left. }
  split.
  - intros Hne. destruct (Hquery Hne) as [Hstep Hall]. auto.
  - intros Habs. destruct (Hdefault Habs) as [Hstep Hall]. auto.
Qed.

Lemma orders_preloads (names : list string) :
  orders (map Preload names) = [].
Proof. induction names as [|n names IH]; [reflexivity | exact IH]. Qed.

Lemma applyGroupBy_on (query : Values) (opts : Options) (db : DB) :
  AllowGroupBy opts = true -> Get query "groupby" <> "" ->
  applyGroupBy query opts db
  = db ++ [Select (Join (map TrimSpace (Split (Get query "groupby") comma))
                        ", "
                   +:+ ", MAX(created_at) as created_at");
           Group (Join (map TrimSpace (Split (Get query "groupby") comma))
                       ", ");
           Order "MAX(created_at) desc"].
Proof.
  intros Ha Hg. unfold applyGroupBy.
  now rewrite Ha, (proj2 (String.eqb_neq _ _) Hg).
Qed.

Lemma compose_orders (query : Values) (opts : Options) (db : DB) :
  orders (compose query opts db)
  = orders db ++ groupOrders query opts ++ [orderExpr query opts].
Proof.
  destruct (compose_shape query opts db) as (search & group & -> & Hs & Hg).
  destruct (applyPreload_extends query opts db) as [names ->].
  rewrite !orders_app, orders_preloads, (orders_wheres _ Hs).
  rewrite app_nil_r. unfold groupOrders.
  destruct Hg as [(Ha & Hne & s & g & ->) | ([Ha | He] & ->)].
  - rewrite Ha, (proj2 (String.eqb_neq _ _) Hne). reflexivity.
  - rewrite Ha. reflexivity.
  - rewrite He, String.eqb_refl, andb_false_r. reflexivity.
Qed.

Lemma issued_orders (h : heap) (query : Values) (db : DB)
  (modelPtr : option T) (opts : Options) (x : exec) :
  In x (issued (ReadPaginated h query db modelPtr opts)) ->
  orders (handle x)
  = orders db ++ groupOrders query opts ++ [orderExpr query opts].
Proof.
  intros Hin.
  destruct (issued_shape _ _ _ _ _ _ Hin)
    as (wheres & window & _ & Hw & -> & Hwin).
  rewrite orders_app, compose_orders, orders_app, (orders_wheres _ Hw).
  replace (orders window) with (@nil string)
    by (destruct Hwin as [-> | (n & m & ->)]; reflexivity).
  now rewrite !app_nil_r.
Qed.

(** C7.  The order-by step adds one order clause, whose expression is the
    [order] parameter when that is not empty, else the configured
    [OrderBy] when that is not empty, else ["created_at desc"].  The
    orders on every query the call hands to the engine are those of the
    caller's handle, then the order on the max-aggregate when the group
    path runs, then that one clause; and a call whose filters pass does
    run its count with these orders. *)
Theorem C7_order_expression (h : heap) (query : Values) (db : DB)
  (modelPtr : option T) (opts : Options) :
  let run := ReadPaginated h query db modelPtr opts in
  exists e,
    (Get query "order" <> "" -> e = Get query "order")
    /\ (Get query "order" = "" -> OrderBy opts <> "" -> e = OrderBy opts)
    /\ (Get query "order" = "" -> OrderBy opts = "" -> e = "created_at desc")
    /\ applyOrder query opts db = db ++ [Order e]
    /\ (forall x, In x (issued run) ->
          orders (handle x) = orders db ++ groupOrders query opts ++ [e])
    /\ (filtersPass h opts query ->
        exists c more,
          issued run = ExecCount c :: more
          /\ orders c = orders db ++ groupOrders query opts ++ [e]).
Proof.
  intros run. subst run. exists (orderExpr query opts).
  destruct (orderExpr_cases query opts) as (H1 & H2 & H3).
  split; [exact H1 |]. split; [exact H2 |]. split; [exact H3 |].
  split; [apply applyOrder_expr |]. split.
  - intros x. apply issued_orders.
  - intros Hpass.
    destruct (passing_request h query db modelPtr opts Hpass)
      as (db1 & more & _ & Hi).
    exists (compose query opts db1), more. split; [exact Hi |].
    apply (issued_orders h query db modelPtr opts
             (ExecCount (compose query opts db1))).
    rewrite Hi. now left.
Qed.

(** C3, as the code has it.  With group-by allowed and a non-empty
    [groupby] parameter, the group path puts on the handle the select of
    the trimmed fields with the max-aggregate, the group on those fields
    and the order on [MAX(created_at) desc], and the order-by step then
    still adds its one order clause behind them.  Every query handed to
    the engine carries these four clauses in a row, with at most the page
    window behind; and a call whose filters pass does run its count on
    such a handle. *)
Theorem C3_group_then_order (h : heap) (query : Values) (db : DB)
  (modelPtr : option T) (opts : Options) :
  AllowGroupBy opts = true ->
  Get query "groupby" <> "" ->
  let run := ReadPaginated h query db modelPtr opts in
  let g := Join (map TrimSpace (Split (Get query "groupby") comma)) ", " in
  let clauses e :=
    [Select (g +:+ ", MAX(created_at) as created_at");
     Group g;
     Order "MAX(created_at) desc";
     Order e] in
  exists e,
    (Get query "order" <> "" -> e = Get query "order")
    /\ (Get query "order" = "" -> OrderBy opts <> "" -> e = OrderBy opts)
    /\ (Get query "order" = "" -> OrderBy opts = "" -> e = "created_at desc")
    /\ (forall db0,
          compose query opts db0
          = applySearch opts (Get query "search")
              (applyPreload query opts db0) ++ clauses e)
    /\ afterGroup (compose query opts db)
       = [Order "MAX(created_at) desc"; Order e]
    /\ (forall x, In x (issued run) ->
          (exists before window,
             handle x = before ++ clauses e ++ window
             /\ (window = [] \/ exists n m, window = [Limit n; Offset m]))
          /\ orders (afterGroup (handle x)) = ["MAX(created_at) desc"; e])
    /\ (filtersPass h opts query ->
        exists db1 more,
          filterLoop (effectiveTypes h opts) query (db, false)
          = Returned (db1, false)
          /\ issued run
             = ExecCount (applySearch opts (Get query "search")
                            (applyPreload query opts db1) ++ clauses e)
               :: more).
Proof.
  intros Ha Hg run g clauses. subst run g clauses. cbv beta.
  exists (orderExpr query opts).
  destruct (orderExpr_cases query opts) as (H1 & H2 & H3).
  assert (forall db0,
            compose query opts db0
            = applySearch opts (Get query "search")
                (applyPreload query opts db0)
              ++ [Select (Join (map TrimSpace
                                  (Split (Get query "groupby") comma)) ", "
                          +:+ ", MAX(created_at) as created_at");
                  Group (Join (map TrimSpace
                                 (Split (Get query "groupby") comma)) ", ");
                  Order "MAX(created_at) desc";
                  Order (orderExpr query opts)]) as Hcompose.
  { intros db0. unfold compose.
    rewrite applyOrder_expr, (applyGroupBy_on _ _ _ Ha Hg).
    now rewrite <- app_assoc. }
  assert (forall before window,
            (window = [] \/ exists n m, window = [Limit n; Offset m]) ->
            afterGroup
              (before
               ++ [Select (Join (map TrimSpace
                                   (Split (Get query "groupby") comma)) ", "
                           +:+ ", MAX(created_at) as created_at");
                   Group (Join (map TrimSpace
                                  (Split (Get query "groupby") comma)) ", ");
                   Order "MAX(created_at) desc";
                   Order (orderExpr query opts)] ++ window)
            = [Order "MAX(created_at) desc"; Order (orderExpr query opts)]
              ++ window) as Hafter.
  { intros before window Hwin.
    change (before ++ [?s; Group ?g; ?o1; ?o2] ++ window)
      with (before ++ [s] ++ Group g :: ([o1; o2] ++ window)).
    rewrite app_assoc. apply afterGroup_last.
    destruct Hwin as [-> | (n & m & ->)]; reflexivity. }
  split; [exact H1 |]. split; [exact H2 |]. split; [exact H3 |].
  split; [exact Hcompose |]. split.
  { rewrite Hcompose.
    rewrite <- (app_nil_r [Select _; Group _; Order _; Order _]).
    rewrite (Hafter _ [] (or_introl eq_refl)). apply app_nil_r. }
  split.
  - intros x Hin.
    destruct (issued_shape _ _ _ _ _ _ Hin)
      as (wheres & window & _ & _ & -> & Hwin).
    rewrite Hcompose, <- app_assoc. split; [eauto |].
    rewrite (Hafter _ _ Hwin).
    destruct Hwin as [-> | (n & m & ->)]; reflexivity.
  - intros Hpass.
    destruct (passing_request h query db modelPtr opts Hpass)
      as (db1 & more & Hloop & Hi).
    exists db1, more. split; [exact Hloop |]. now rewrite <- Hcompose.
Qed.

(** C8.  The page and the page size that [ReadPaginated] uses are at least
    1.  A [page] or [pageSize] parameter that is empty, not a number or not
    above zero leaves the default in place (the configured one when
    positive, else 1 and 10), and the call then behaves in every respect,
    its error included, as on the parameter set without that parameter.  A
    positive number is taken as given.  A call whose filters pass runs its
    count, then its fetch with the page size as limit and the rows of the
    pages before as offset, and gives the page and the page size back in
    the pagination map. *)
Theorem C8_page_window (h : heap) (query : Values) (db : DB)
  (modelPtr : option T) (opts : Options) :
  let run := ReadPaginated h query db modelPtr opts in
  let pg := resolvePage query opts in
  let ps := resolvePageSize query opts in
  1 <= pg
  /\ 1 <= ps
  /\ (Get query "page" = "" \/ notPositiveInt (Get query "page") ->
      pg = defaultPage opts
      /\ run = ReadPaginated h (dropKey "page" query) db modelPtr opts)
  /\ (Get query "pageSize" = "" \/ notPositiveInt (Get query "pageSize") ->
      ps = defaultPageSize opts
      /\ run = ReadPaginated h (dropKey "pageSize" query) db modelPtr opts)
  /\ (forall n, Get query "page" <> "" -> Atoi (Get query "page") = Some n ->
      0 < n -> pg = n)
  /\ (forall n, Get query "pageSize" <> "" ->
      Atoi (Get query "pageSize") = Some n ->
      0 < n -> ps = n)
  /\ (filtersPass h opts query ->
      exists db1,
        filterLoop (effectiveTypes h opts) query (db, false)
        = Returned (db1, false)
        /\ (exists more,
              issued run = ExecCount (compose query opts db1) :: more)
        /\ (forall n,
              Count (compose query opts db1) = Ok n ->
              issued run
              = [ExecCount (compose query opts db1);
                 ExecFind (compose query opts db1
                           ++ [Limit ps;
                               Offset (GoInt.mul (GoInt.sub pg 1) ps)])])
        /\ (forall n rows,
              Count (compose query opts db1) = Ok n ->
              Find (compose query opts db1
                    ++ [Limit ps; Offset (GoInt.mul (GoInt.sub pg 1) ps)])
              = Ok rows ->
              exists meta,
                result run
                = Returned ({| Data := rows;
                               Meta := Some {[ "pagination" := meta ]} |},
                            None)
                /\ page meta = pg /\ pageSize meta = ps)).
Proof.
  intros run pg ps. subst run pg ps.
  destruct (page_window_resolved h query db modelPtr opts)
    as (H1 & H2 & H3 & H4 & H5 & H6).
  do 6 (split; [assumption |]).
  intros Hpass.
  apply (filtersPass_iff h opts query db) in Hpass as [db1 Hloop].
  exists db1. split; [exact Hloop |].
  destruct (ReadPaginated_cases h query db modelPtr opts)
    as [(m & Hl & _)
       | [(d1 & Hl & _)
         | (d1 & c & f & Hl & -> & -> & Hcases)]];
    rewrite Hloop in Hl; try discriminate.
  injection Hl as <-.
  destruct Hcases
    as [(e & Hc & _ & Hi)
       | [(n' & e & Hc & Hf & _ & Hi)
         | (n' & rows' & meta & Hc & Hf & Hm & Hr & Hi)]].
  - split; [eauto |]. split; intros; congruence.
  - split; [eauto |]. split; [now intros |]. intros; congruence.
  - split; [eauto |]. split; [now intros |].
    intros n rows Hn Hrows. exists meta. rewrite Hr.
    replace rows' with rows by congruence.
    split; [reflexivity |].
    unfold paginationMeta in Hm.
    destruct (resolvePageSize query opts =? 0); [discriminate |].
    injection Hm as <-. auto.
Qed.

(** X12.  On a call whose filters pass and whose count succeeds, when
    [(page - 1) * pageSize] fits an [int], the fetch handed to the engine
    carries the page size as limit and [(page - 1) * pageSize], the rows
    of the pages before and not below zero, as offset. *)
Theorem offset_skips_the_pages_before (h : heap) (query : Values)
  (db db1 : DB) (modelPtr : option T) (opts : Options) (n : Z) :
  let pg := resolvePage query opts in
  let ps := resolvePageSize query opts in
  filterLoop (effectiveTypes h opts) query (db, false)
  = Returned (db1, false) ->
  Count (compose query opts db1) = Ok n ->
  (pg - 1) * ps <= GoInt.maxInt64 ->
  pg <= GoInt.maxInt64 ->
  0 <= (pg - 1) * ps
  /\ issued (ReadPaginated h query db modelPtr opts)
     = [ExecCount (compose query opts db1);
        ExecFind (compose query opts db1
                  ++ [Limit ps; Offset ((pg - 1) * ps)])].
Proof.
  intros pg ps Hloop Hcount Hfit Hpg.
  pose proof (resolvePage_lower query opts) as Hp1.
  pose proof (resolvePageSize_lower query opts) as Hs1.
  fold pg in Hp1. fold ps in Hs1.
  assert (GoInt.mul (GoInt.sub pg 1) ps = (pg - 1) * ps) as Hoff.
  { unfold GoInt.mul, GoInt.sub.
    rewrite (wrap64_in_range (pg - 1))
      by (unfold GoInt.in_range, GoInt.minInt64, GoInt.maxInt64 in *; lia).
    apply wrap64_in_range.
    unfold GoInt.in_range, GoInt.minInt64, GoInt.maxInt64 in *. nia. }
  split; [nia |]. rewrite <- Hoff. subst pg ps.
  destruct (ReadPaginated_cases h query db modelPtr opts)
    as [(m & Hl & _)
       | [(d1 & Hl & _)
         | (d1 & c & f & Hl & -> & -> & Hcases)]];
    rewrite Hloop in Hl; try discriminate.
  injection Hl as <-.
  destruct Hcases
    as [(e & Hc & _)
       | [(n' & e & _ & _ & _ & Hi)
         | (n' & rows' & meta & _ & _ & _ & _ & Hi)]];
    [congruence | exact Hi | exact Hi].
Qed.

(** ** Valid filters, up to the engine *)

Lemma parts_parse (parts : list string) :
  (forall p, In p parts -> Atoi p <> None) ->
  exists ints, Forall2 (fun p i => Atoi p = Some i) parts ints.
Proof.
  induction parts as [|p parts IH]; intros Hall.
  - exists []. constructor.
  - destruct IH as [ints Hints]; [intros q Hq; apply Hall; now right |].
    destruct (Atoi p) as [i|] eqn:Hp; [|now destruct (Hall p (or_introl eq_refl))].
    exists (i :: ints). now constructor.
Qed.

(** The loop body makes one condition of an entry whose parts are all
    valid: an equality without comma, a membership with one. *)
Lemma filterStep_emits_some (types : gmap string string)
  (field value : string) (rest : list string) :
  field <> "" ->
  (forall part, In part (filterParts value) ->
     ~ failsCoercion (declaredType types field) part) ->
  exists arg,
    forall db0 inv,
      filterStep types (db0, inv) (filterKey field, value :: rest)
      = Returned
          (db0 ++ [Where (field +:+ (if Contains value comma
                                     then " IN ?" else " = ?")) arg],
           inv).
Proof.
  intros Hfield Hvalid.
  pose proof (fun db0 inv =>
                filterStep_conditions types db0 inv field value rest Hfield)
    as Hstep.
  cbv zeta in Hstep. unfold filterParts, failsCoercion in Hvalid.
  destruct (Contains value comma) eqn:Hcomma.
  - destruct (String.string_dec (declaredType types field) "int") as [Hint|Hint];
      [|destruct (String.string_dec (declaredType types field) "uuid")
          as [Huuid|Huuid]].
    + destruct (parts_parse (map TrimSpace (Split value comma)))
        as [ints Hints].
      { intros p Hp Hnone. apply (Hvalid p Hp). now left. }
      exists (ArgInts ints). intros db0 inv.
      now apply (proj1 (proj2 (Hstep db0 inv) eq_refl)).
    + exists (ArgStrings (map TrimSpace (Split value comma))).
      intros db0 inv.
      apply (proj1 (proj2 (proj2 (Hstep db0 inv) eq_refl))); [exact Huuid |].
      apply List.Forall_forall. intros p Hp.
      destruct (uuidParseOk p) eqn:Hok; [reflexivity |].
      destruct (Hvalid p Hp). now right.
    + exists (ArgStrings (map TrimSpace (Split value comma))).
      intros db0 inv.
      now apply (proj2 (proj2 (proj2 (Hstep db0 inv) eq_refl))).
  - destruct (String.string_dec (declaredType types field) "int") as [Hint|Hint];
      [|destruct (String.string_dec (declaredType types field) "uuid")
          as [Huuid|Huuid]].
    + destruct (Atoi value) as [iv|] eqn:Hiv.
      * exists (ArgInt iv). intros db0 inv.
        now apply (proj1 (proj1 (Hstep db0 inv) eq_refl)).
      * destruct (Hvalid value (or_introl eq_refl)). now left.
    + exists (ArgString value). intros db0 inv.
      apply (proj1 (proj2 (proj1 (Hstep db0 inv) eq_refl))); [exact Huuid |].
      destruct (uuidParseOk value) eqn:Hok; [reflexivity |].
      destruct (Hvalid value (or_introl eq_refl)). now right.
    + exists (ArgString value). intros db0 inv.
      now apply (proj2 (proj2 (proj1 (Hstep db0 inv) eq_refl))).
Qed.

(** A condition that the loop body emits for an entry is among the
    conditions that the loop adds to the handle it starts from. *)
Lemma filterLoop_adds (types : gmap string string) (query : Values)
  (db wheres : DB) (inv inv' : bool) (kv : string * list string)
  (c : clause) :
  In kv query ->
  (forall db0 inv0, filterStep types (db0, inv0) kv
                    = Returned (db0 ++ [c], inv0)) ->
  filterLoop types query (db, inv) = Returned (db ++ wheres, inv') ->
  In c wheres.
Proof.
  intros Hin Hemit. revert db inv wheres.
  induction query as [|kv0 query IH]; intros db inv wheres;
    cbn [filterLoop In] in *; [contradiction |].
  destruct (filterStep types (db, inv) kv0) as [[db1 inv1]|] eqn:Hstep;
    [|intros ?; discriminate].
  intros Hloop.
  destruct (filterLoop_wheres _ _ _ _ Hloop) as (added & Hdb & _).
  cbn [fst] in Hdb.
  assert (exists first, db1 = db ++ first) as [first ->].
  { destruct (filterStep_wheres _ _ _ _ Hstep) as [Hsame | (q & a & Hone)];
      cbn [fst] in *; subst db1; [exists []; now rewrite app_nil_r | eauto]. }
  rewrite <- app_assoc in Hdb. apply app_inv_head in Hdb. subst wheres.
  rewrite app_assoc in Hloop.
  destruct Hin as [-> | Hin].
  - rewrite Hemit in Hstep. injection Hstep as Hfirst _.
    apply app_inv_head in Hfirst. subst first.
    apply in_or_app. left. now left.
  - apply in_or_app. right.
    apply (IH Hin (db ++ first) inv1 added). now rewrite <- Hloop.
Qed.

(** X19.  When no filter key with a field has an empty value list and no
    part of any filter value fails the coercion of its field's declared
    type, the loop returns with [invalidFilter] down and the call runs the
    count first, on the caller's handle followed by the loop's conditions
    and then the composer's clauses.  The loop's conditions are all
    [Where] clauses and hold, for every filter entry with a field, the
    condition on that field: a membership when the first value has a
    comma, an equality otherwise.  Every query handed to the engine is
    this one, with at most the page window behind. *)
Theorem valid_filters_reach_the_engine (h : heap) (query : Values) (db : DB)
  (modelPtr : option T) (opts : Options) :
  filtersPass h opts query ->
  exists wheres more,
    filterLoop (effectiveTypes h opts) query (db, false)
    = Returned (db ++ wheres, false)
    /\ Forall isWhere wheres
    /\ issued (ReadPaginated h query db modelPtr opts)
       = ExecCount (compose query opts (db ++ wheres)) :: more
    /\ (forall x, In x (issued (ReadPaginated h query db modelPtr opts)) ->
        exists window,
          handle x = compose query opts (db ++ wheres) ++ window
          /\ (window = [] \/ exists n m, window = [Limit n; Offset m]))
    /\ (forall field value rest,
          field <> "" ->
          In (filterKey field, value :: rest) query ->
          exists arg,
            In (Where (field +:+ (if Contains value comma
                                  then " IN ?" else " = ?")) arg) wheres).
Proof.
  intros Hpass.
  destruct (passing_request h query db modelPtr opts Hpass)
    as (db1 & more & Hloop & Hi).
  destruct (filterLoop_wheres _ _ _ _ Hloop) as (wheres & Hdb1 & Hw).
  cbn [fst] in Hdb1. subst db1.
  exists wheres, more.
  split; [exact Hloop |]. split; [exact Hw |]. split; [exact Hi |]. split.
  - intros x Hx.
    destruct (issued_shape _ _ _ _ _ _ Hx)
      as (wheres' & window & Hloop' & _ & Hh & Hwin).
    rewrite Hloop in Hloop'. injection Hloop' as Heq.
    apply app_inv_head in Heq. subst wheres'. eauto.
  - intros field value rest Hfield Hentry.
    destruct Hpass as [_ Hvalid].
    destruct (filterStep_emits_some (effectiveTypes h opts) field value rest
                Hfield) as [arg Hemit].
    { intros part Hpart. exact (Hvalid field value rest part Hfield Hentry Hpart). }
    exists arg.
    exact (filterLoop_adds _ _ _ _ _ _ _ _ Hentry Hemit Hloop).
Qed.

End ReadHelper.

(** ** The theorems at work on the sample deployment *)

(** Discharges [filtersPass] on a closed request by running the loop. *)
Ltac filters_pass :=
  apply (proj2 (filtersPass_iff _ _ _ _ _ _ []));
  eexists; vm_compute; reflexivity.

Lemma C1_witness :
  result (ReadPaginated Sample.Count Sample.Find GoLib.Atoi GoLib.TrimSpace
            GoLib.uuidParseOk ∅ Sample.badFilterQuery [] None
            Sample.plainOptions)
  = Returned ({| Data := Some []; Meta := Some ∅ |}, Some ErrInvalidFilter)
  /\ issued (ReadPaginated Sample.Count Sample.Find GoLib.Atoi
               GoLib.TrimSpace GoLib.uuidParseOk ∅ Sample.badFilterQuery []
               None Sample.plainOptions)
     = [].
Proof.
  apply (C1_invalid_filter_aborts Sample.Count Sample.Find GoLib.Atoi
           GoLib.TrimSpace GoLib.uuidParseOk ∅ Sample.badFilterQuery []
           None Sample.plainOptions "jumlah" "1, x,3" "x" []).
  - intros field _ Hin. simpl in Hin.
    destruct Hin as [Heq | [Heq | [Heq | []]]]; discriminate Heq.
  - discriminate.
  - simpl. right. right. left. reflexivity.
  - vm_compute. right. left. reflexivity.
  - left. split; vm_compute; reflexivity.
Defined.

Lemma C9_witness :
  result (ReadPaginated Sample.Count Sample.Find GoLib.Atoi GoLib.TrimSpace
            GoLib.uuidParseOk ∅ Sample.emptyValueQuery [] None
            Sample.plainOptions)
  = Panicked indexPanic
  /\ exists r,
      result (ReadPaginated Sample.Count Sample.Find GoLib.Atoi
                GoLib.TrimSpace GoLib.uuidParseOk ∅ Sample.groupQuery []
                None Sample.plainOptions)
      = Returned r.
Proof.
  split.
  - apply (C9_empty_value_list_panics Sample.Count Sample.Find GoLib.Atoi
             GoLib.TrimSpace GoLib.uuidParseOk ∅ Sample.emptyValueQuery []
             None Sample.plainOptions).
    exists "status". split; [discriminate |].
    simpl. right. left. reflexivity.
  - apply (C9_empty_value_list_panics Sample.Count Sample.Find GoLib.Atoi
             GoLib.TrimSpace GoLib.uuidParseOk ∅ Sample.groupQuery []
             None Sample.plainOptions).
    intros key vals Hin. simpl in Hin.
    destruct Hin as [[= <- <-] | []]. discriminate.
Defined.

Lemma C5_witness :
  filtersPass GoLib.Atoi GoLib.TrimSpace GoLib.uuidParseOk ∅
    Sample.plainOptions Sample.validFilterQuery
  /\ conditionOfEntry Sample.Count Sample.Find GoLib.Atoi GoLib.TrimSpace
       GoLib.uuidParseOk ∅ Sample.validFilterQuery [] None
       Sample.plainOptions (filterKey "jumlah", ["1, 2,3"])
       (Where "jumlah IN ?" (ArgInts [1; 2; 3]))
  /\ conditionOfEntry Sample.Count Sample.Find GoLib.Atoi GoLib.TrimSpace
       GoLib.uuidParseOk ∅ Sample.validFilterQuery [] None
       Sample.plainOptions (filterKey "status", ["active"])
       (Where "status = ?" (ArgString "active"))
  /\ exists more,
       issued (ReadPaginated Sample.Count Sample.Find GoLib.Atoi
                 GoLib.TrimSpace GoLib.uuidParseOk ∅ Sample.validFilterQuery
                 [] None Sample.plainOptions)
       = ExecCount [Where "jumlah IN ?" (ArgInts [1; 2; 3]);
                    Where "status = ?" (ArgString "active");
                    Preload "Kategori"; Order "created_at desc"] :: more.
Proof.
  assert (filtersPass GoLib.Atoi GoLib.TrimSpace GoLib.uuidParseOk ∅
            Sample.plainOptions Sample.validFilterQuery) as Hpass
    by filters_pass.
  assert (conditionOfEntry Sample.Count Sample.Find GoLib.Atoi
            GoLib.TrimSpace GoLib.uuidParseOk ∅ Sample.validFilterQuery []
            None Sample.plainOptions (filterKey "jumlah", ["1, 2,3"])
            (Where "jumlah IN ?" (ArgInts [1; 2; 3]))) as Hjumlah.
  { destruct (C5_filter_conditions Sample.Count Sample.Find GoLib.Atoi
                GoLib.TrimSpace GoLib.uuidParseOk ∅ Sample.validFilterQuery
                [] None Sample.plainOptions "jumlah" "1, 2,3" []
                ltac:(discriminate) ltac:(left; reflexivity))
      as [_ Hmulti].
    destruct (Hmulti eq_refl) as (Hint & _ & _).
    apply (Hint [1; 2; 3]);
      [vm_compute; reflexivity | repeat constructor]. }
  split; [exact Hpass |]. split; [exact Hjumlah |]. split.
  - destruct (C5_filter_conditions Sample.Count Sample.Find GoLib.Atoi
                GoLib.TrimSpace GoLib.uuidParseOk ∅ Sample.validFilterQuery
                [] None Sample.plainOptions "status" "active" []
                ltac:(discriminate) ltac:(right; left; reflexivity))
      as [Hsingle _].
    destruct (Hsingle eq_refl) as (_ & _ & Hstring).
    apply Hstring; vm_compute; discriminate.
  - destruct Hjumlah as (_ & _ & Hengine).
    destruct (Hengine Hpass) as (db1 & more & Hloop & _ & Hissued & _).
    assert (db1 = [Where "jumlah IN ?" (ArgInts [1; 2; 3]);
                   Where "status = ?" (ArgString "active")]) as ->
      by (vm_compute in Hloop; congruence).
    exists more. exact Hissued.
Defined.

Lemma C6_witness :
  (applyPreload GoLib.TrimSpace Sample.preloadQuery Sample.plainOptions []
   = [Preload "TypeBarang"; Preload "Kategori"]
   /\ exists c more,
        issued (ReadPaginated Sample.Count Sample.Find GoLib.Atoi
                  GoLib.TrimSpace GoLib.uuidParseOk ∅ Sample.preloadQuery []
                  None Sample.plainOptions)
        = ExecCount c :: more
        /\ preloads c = ["TypeBarang"; "Kategori"])
  /\ (applyPreload GoLib.TrimSpace Sample.groupQuery Sample.plainOptions []
      = [Preload "Kategori"]
      /\ exists c more,
           issued (ReadPaginated Sample.Count Sample.Find GoLib.Atoi
                     GoLib.TrimSpace GoLib.uuidParseOk ∅ Sample.groupQuery []
                     None Sample.plainOptions)
           = ExecCount c :: more
           /\ preloads c = ["Kategori"]).
Proof.
  split.
  - destruct (proj1 (C6_preload_replaces_defaults Sample.Count Sample.Find
                       GoLib.Atoi GoLib.TrimSpace GoLib.uuidParseOk ∅
                       Sample.preloadQuery [] None Sample.plainOptions)
                ltac:(vm_compute; discriminate))
      as (Hstep & _ & Hcount).
    split; [exact Hstep |]. apply Hcount. filters_pass.
  - destruct (proj2 (C6_preload_replaces_defaults Sample.Count Sample.Find
                       GoLib.Atoi GoLib.TrimSpace GoLib.uuidParseOk ∅
                       Sample.groupQuery [] None Sample.plainOptions)
                eq_refl)
      as (Hstep & _ & Hcount).
    split; [exact Hstep |]. apply Hcount. filters_pass.
Defined.

Lemma C7_witness :
  (applyOrder Sample.preloadQuery Sample.plainOptions [] = [Order "name asc"]
   /\ exists c more,
        issued (ReadPaginated Sample.Count Sample.Find GoLib.Atoi
                  GoLib.TrimSpace GoLib.uuidParseOk ∅ Sample.preloadQuery []
                  None Sample.plainOptions)
        = ExecCount c :: more
        /\ orders c = ["name asc"])
  /\ (applyOrder Sample.groupQuery Sample.plainOptions []
      = [Order "created_at desc"]
      /\ exists c more,
           issued (ReadPaginated Sample.Count Sample.Find GoLib.Atoi
                     GoLib.TrimSpace GoLib.uuidParseOk ∅ Sample.groupQuery []
                     None Sample.plainOptions)
           = ExecCount c :: more
           /\ orders c = ["MAX(created_at) desc"; "created_at desc"]).
Proof.
  split.
  - destruct (C7_order_expression Sample.Count Sample.Find GoLib.Atoi
                GoLib.TrimSpace GoLib.uuidParseOk ∅ Sample.preloadQuery []
                None Sample.plainOptions)
      as (e & Hq & _ & _ & Happ & _ & Hcount).
    rewrite (Hq ltac:(vm_compute; discriminate)) in Happ, Hcount.
    split; [exact Happ |]. apply Hcount. filters_pass.
  - destruct (C7_order_expression Sample.Count Sample.Find GoLib.Atoi
                GoLib.TrimSpace GoLib.uuidParseOk ∅ Sample.groupQuery []
                None Sample.plainOptions)
      as (e & _ & _ & Hfixed & Happ & _ & Hcount).
    rewrite (Hfixed eq_refl eq_refl) in Happ, Hcount.
    split; [exact Happ |]. apply Hcount. filters_pass.
Defined.

Lemma C3_witness :
  afterGroup (compose GoLib.TrimSpace Sample.groupQuery
                Sample.plainOptions [])
  = [Order "MAX(created_at) desc"; Order "created_at desc"]
  /\ exists more,
       issued (ReadPaginated Sample.Count Sample.Find GoLib.Atoi
                 GoLib.TrimSpace GoLib.uuidParseOk ∅ Sample.groupQuery []
                 None Sample.plainOptions)
       = ExecCount
           [Preload "Kategori";
            Select "category_id, MAX(created_at) as created_at";
            Group "category_id";
            Order "MAX(created_at) desc";
            Order "created_at desc"] :: more.
Proof.
  destruct (C3_group_then_order Sample.Count Sample.Find GoLib.Atoi
              GoLib.TrimSpace GoLib.uuidParseOk ∅ Sample.groupQuery []
              None Sample.plainOptions eq_refl ltac:(vm_compute; discriminate))
    as (e & _ & _ & Hfixed & _ & Hafter & _ & Hcount).
  rewrite (Hfixed eq_refl eq_refl) in Hafter, Hcount.
  split; [exact Hafter |].
  destruct (Hcount ltac:(filters_pass)) as (db1 & more & Hloop & Hissued).
  assert (db1 = []) as -> by (vm_compute in Hloop; congruence).
  exists more. exact Hissued.
Defined.

Lemma C8_witness :
  resolvePage GoLib.Atoi Sample.badWindowQuery Sample.plainOptions = 1
  /\ resolvePageSize GoLib.Atoi Sample.badWindowQuery Sample.plainOptions
     = 10
  /\ resolvePage GoLib.Atoi Sample.pageTwoQuery Sample.plainOptions = 2
  /\ resolvePageSize GoLib.Atoi Sample.pageTwoQuery Sample.plainOptions = 5
  /\ issued (ReadPaginated Sample.Count Sample.Find GoLib.Atoi
               GoLib.TrimSpace GoLib.uuidParseOk ∅ Sample.pageTwoQuery []
               None Sample.plainOptions)
     = [ExecCount [Preload "Kategori"; Order "created_at desc"];
        ExecFind [Preload "Kategori"; Order "created_at desc";
                  Limit 5; Offset 5]]
  /\ exists meta,
       result (ReadPaginated Sample.Count Sample.Find GoLib.Atoi
                 GoLib.TrimSpace GoLib.uuidParseOk ∅ Sample.pageTwoQuery []
                 None Sample.plainOptions)
       = Returned ({| Data := Some ["keyboard"; "mouse"];
                      Meta := Some {[ "pagination" := meta ]} |}, None)
       /\ page meta = 2 /\ pageSize meta = 5.
Proof.
  destruct (C8_page_window Sample.Count Sample.Find GoLib.Atoi
              GoLib.TrimSpace GoLib.uuidParseOk ∅ Sample.badWindowQuery []
              None Sample.plainOptions) as (_ & _ & Hpage & Hsize & _).
  destruct (C8_page_window Sample.Count Sample.Find GoLib.Atoi
              GoLib.TrimSpace GoLib.uuidParseOk ∅ Sample.pageTwoQuery []
              None Sample.plainOptions)
    as (_ & _ & _ & _ & Hgiven & Hgiven' & Hengine).
  destruct (Hengine ltac:(filters_pass))
    as (db1 & Hloop & _ & Hissued & Hresult).
  assert (db1 = []) as -> by (vm_compute in Hloop; congruence).
  split; [apply Hpage; right; left; reflexivity |].
  split; [apply Hsize; right; right; exists (-5);
          split; [reflexivity | lia] |].
  split; [apply Hgiven; [vm_compute; discriminate | reflexivity | lia] |].
  split; [apply Hgiven'; [vm_compute; discriminate | reflexivity | lia] |].
  split; [exact (Hissued 48 eq_refl) |].
  exact (Hresult 48 (Some ["keyboard"; "mouse"]) eq_refl eq_refl).
Defined.

(** C4.  The page count is not the ceiling for every page size of at least
    1: at two rows and the largest page size an [int] holds, the sum
    [total + pageSize] of line 247 leaves the range of [int64] and the page
    count comes out as -1, where the ceiling of 2 / (2^63 - 1) is 1.  The
    [pageSize] parameter of a request carries such a page size to the
    paginator: on the sample table of 48 rows the call reports 0 pages. *)
Theorem C4_page_count_wraps :
  paginationMeta 2 1 GoInt.maxInt64
  = Returned {| page := 1; pageSize := GoInt.maxInt64; pageCount := -1;
                total := 2; hasNext := false; hasPrev := false |}
  /\ ceilDiv 2 GoInt.maxInt64 = 1
  /\ result (ReadPaginated Sample.Count Sample.Find GoLib.Atoi
               GoLib.TrimSpace GoLib.uuidParseOk ∅ Sample.hugePageSizeQuery
               [] None Sample.plainOptions)
     = Returned
         ({| Data := Some ["keyboard"; "mouse"];
             Meta := Some {[ "pagination" :=
                               {| page := 1; pageSize := GoInt.maxInt64;
                                  pageCount := 0; total := 48;
                                  hasNext := false; hasPrev := false |} ]} |},
          None)
  /\ ceilDiv 48 GoInt.maxInt64 = 1.
Proof. repeat split; vm_compute; reflexivity. Qed.

(** C1, as stated, fails.  On [?filter[jumlah]=x] together with a
    [filter[status]] key that carries no value, the first value of
    [filter[jumlah]] fails the coercion to [int], and the call does not
    return [ErrInvalidFilter]: it panics on the other key, whichever of
    the two the loop visits first. *)
Lemma C1_counterexample :
  In (filterKey "jumlah", ["x"]) Sample.panicFilterQuery
  /\ In "x" (filterParts GoLib.TrimSpace "x")
  /\ failsCoercion GoLib.Atoi GoLib.uuidParseOk
       (declaredType (effectiveTypes ∅ Sample.plainOptions) "jumlah") "x"
  /\ result (ReadPaginated Sample.Count Sample.Find GoLib.Atoi
               GoLib.TrimSpace GoLib.uuidParseOk ∅ Sample.panicFilterQuery
               [] None Sample.plainOptions)
     = Panicked indexPanic
  /\ result (ReadPaginated Sample.Count Sample.Find GoLib.Atoi
               GoLib.TrimSpace GoLib.uuidParseOk ∅
               (rev Sample.panicFilterQuery) [] None Sample.plainOptions)
     = Panicked indexPanic
  /\ result (ReadPaginated Sample.Count Sample.Find GoLib.Atoi
               GoLib.TrimSpace GoLib.uuidParseOk ∅ Sample.panicFilterQuery
               [] None Sample.plainOptions)
     <> Returned ({| Data := Some []; Meta := Some ∅ |},
                  Some ErrInvalidFilter).
Proof.
  split; [left; reflexivity |].
  split; [vm_compute; left; reflexivity |].
  split; [left; split; vm_compute; reflexivity |].
  split; [vm_compute; reflexivity |].
  split; [vm_compute; reflexivity |].
  vm_compute. discriminate.
Qed.

(** C3, as stated, fails.  On [?groupby=category_id] with group-by allowed,
    no [order] parameter and no configured order, the handle that reaches
    the engine carries ["created_at desc"] after the max-aggregate order:
    the order-by step has run after the group path. *)
Lemma C3_counterexample :
  AllowGroupBy Sample.plainOptions = true
  /\ Get Sample.groupQuery "groupby" <> ""
  /\ Get Sample.groupQuery "order" = ""
  /\ issued (ReadPaginated Sample.Count Sample.Find GoLib.Atoi
               GoLib.TrimSpace GoLib.uuidParseOk ∅ Sample.groupQuery []
               None Sample.plainOptions)
     = [ExecCount
          [Preload "Kategori";
           Select "category_id, MAX(created_at) as created_at";
           Group "category_id";
           Order "MAX(created_at) desc";
           Order "created_at desc"];
        ExecFind
          [Preload "Kategori";
           Select "category_id, MAX(created_at) as created_at";
           Group "category_id";
           Order "MAX(created_at) desc";
           Order "created_at desc";
           Limit 10; Offset 0]]
  /\ ~ groupOrderOverrides
         (compose GoLib.TrimSpace Sample.groupQuery Sample.plainOptions []).
Proof.
  split; [reflexivity |]. split; [vm_compute; discriminate |].
  split; [reflexivity |]. split; [vm_compute; reflexivity |].
  unfold groupOrderOverrides. vm_compute. discriminate.
Qed.

(** ** Further properties at work on the sample deployments *)

Lemma search_adds_one_condition_witness :
  applySearch Sample.plainOptions (Get Outage.busyQuery "search") []
  = [Where "name ILIKE ?" (ArgString "%key%")].
Proof.
  exact (proj1 (search_adds_one_condition Sample.Count Sample.Find
                  GoLib.Atoi GoLib.TrimSpace GoLib.uuidParseOk ∅
                  Outage.busyQuery [] None Sample.plainOptions
                  ltac:(vm_compute; discriminate)
                  ltac:(vm_compute; discriminate))).
Defined.

Lemma search_off_is_ignored_witness :
  ReadPaginated Sample.Count Sample.Find GoLib.Atoi GoLib.TrimSpace
    GoLib.uuidParseOk ∅ Outage.busyQuery [] None Outage.bareOptions
  = ReadPaginated Sample.Count Sample.Find GoLib.Atoi GoLib.TrimSpace
      GoLib.uuidParseOk ∅ (dropKey "search" Outage.busyQuery) [] None
      Outage.bareOptions.
Proof.
  exact (proj2 (search_off_is_ignored Sample.Count Sample.Find GoLib.Atoi
                  GoLib.TrimSpace GoLib.uuidParseOk ∅ Outage.busyQuery []
                  None Outage.bareOptions (or_introl eq_refl))).
Defined.

Lemma groupby_off_is_ignored_witness :
  ReadPaginated Sample.Count Sample.Find GoLib.Atoi GoLib.TrimSpace
    GoLib.uuidParseOk ∅ Outage.busyQuery [] None Outage.bareOptions
  = ReadPaginated Sample.Count Sample.Find GoLib.Atoi GoLib.TrimSpace
      GoLib.uuidParseOk ∅ (dropKey "groupby" Outage.busyQuery) [] None
      Outage.bareOptions.
Proof.
  exact (proj2 (groupby_off_is_ignored Sample.Count Sample.Find GoLib.Atoi
                  GoLib.TrimSpace GoLib.uuidParseOk ∅ Outage.busyQuery []
                  None Outage.bareOptions (or_introl eq_refl))).
Defined.

Lemma unknown_parameter_is_ignored_witness :
  ReadPaginated Sample.Count Sample.Find GoLib.Atoi GoLib.TrimSpace
    GoLib.uuidParseOk ∅ Outage.busyQuery [] None Sample.plainOptions
  = ReadPaginated Sample.Count Sample.Find GoLib.Atoi GoLib.TrimSpace
      GoLib.uuidParseOk ∅ (dropKey "utm_source" Outage.busyQuery) [] None
      Sample.plainOptions.
Proof.
  apply (unknown_parameter_is_ignored Sample.Count Sample.Find GoLib.Atoi
           GoLib.TrimSpace GoLib.uuidParseOk ∅ Outage.busyQuery [] None
           Sample.plainOptions "utm_source").
  - reflexivity.
  - simpl. intros [H | [H | [H | [H | [H | [H | []]]]]]]; discriminate H.
Defined.

Lemma visiting_order_is_immaterial_witness :
  sameUpToOrder
    (filterLoop GoLib.Atoi GoLib.TrimSpace GoLib.uuidParseOk Sample.types
       [("page", ["2"]); ("filter[status]", ["active"]);
        ("filter[jumlah]", ["1, x,3"])]
       ([], false))
    (filterLoop GoLib.Atoi GoLib.TrimSpace GoLib.uuidParseOk Sample.types
       [("filter[status]", ["active"]); ("page", ["2"]);
        ("filter[jumlah]", ["1, x,3"])]
       ([], false)).
Proof.
  apply (visiting_order_is_immaterial Sample.Count Sample.Find GoLib.Atoi
           GoLib.TrimSpace GoLib.uuidParseOk ∅
           [("page", ["2"]); ("filter[status]", ["active"]);
            ("filter[jumlah]", ["1, x,3"])]
           [("filter[status]", ["active"]); ("page", ["2"]);
            ("filter[jumlah]", ["1, x,3"])]
           [] None Sample.plainOptions).
  apply perm_swap.
Defined.

Lemma invalid_filter_has_a_cause_witness :
  exists field value rest part,
    field <> ""
    /\ In (filterKey field, value :: rest) Sample.badFilterQuery
    /\ In part (filterParts GoLib.TrimSpace value)
    /\ failsCoercion GoLib.Atoi GoLib.uuidParseOk
         (declaredType (effectiveTypes ∅ Sample.plainOptions) field) part.
Proof.
  apply (invalid_filter_has_a_cause Sample.Count Sample.Find GoLib.Atoi
           GoLib.TrimSpace GoLib.uuidParseOk ∅ Sample.badFilterQuery []
           None Sample.plainOptions {| Data := Some []; Meta := Some ∅ |}).
  vm_compute. reflexivity.
Defined.

Lemma engine_errors_propagate_witness :
  result (ReadPaginated Outage.Count Sample.Find GoLib.Atoi GoLib.TrimSpace
            GoLib.uuidParseOk ∅ Sample.groupQuery [] None
            Sample.plainOptions)
  = Returned ({| Data := None; Meta := None |},
              Some (EngineError "connection refused"))
  /\ result (ReadPaginated Sample.Count Outage.Find GoLib.Atoi
               GoLib.TrimSpace GoLib.uuidParseOk ∅ Sample.groupQuery []
               None Sample.plainOptions)
     = Returned ({| Data := None; Meta := None |},
                 Some (EngineError "relation does not exist")).
Proof.
  split.
  - pose proof (engine_errors_propagate Outage.Count Sample.Find GoLib.Atoi
                  GoLib.TrimSpace GoLib.uuidParseOk ∅ Sample.groupQuery []
                  [] None Sample.plainOptions
                  ltac:(vm_compute; reflexivity)) as H.
    cbv zeta in H. destruct H as [Hcount _].
    exact (proj1 (Hcount "connection refused" eq_refl)).
  - pose proof (engine_errors_propagate Sample.Count Outage.Find GoLib.Atoi
                  GoLib.TrimSpace GoLib.uuidParseOk ∅ Sample.groupQuery []
                  [] None Sample.plainOptions
                  ltac:(vm_compute; reflexivity)) as H.
    cbv zeta in H. destruct H as [_ Hfind].
    exact (proj1 (Hfind 48 "relation does not exist" eq_refl eq_refl)).
Defined.

Lemma success_assembles_result_witness :
  exists meta,
    result (ReadPaginated Sample.Count Sample.Find GoLib.Atoi
              GoLib.TrimSpace GoLib.uuidParseOk ∅ Sample.groupQuery [] None
              Sample.plainOptions)
    = Returned ({| Data := Some ["keyboard"; "mouse"];
                   Meta := Some {[ "pagination" := meta ]} |}, None)
    /\ page meta = 1 /\ pageSize meta = 10 /\ total meta = 48.
Proof.
  exact (success_assembles_result Sample.Count Sample.Find GoLib.Atoi
           GoLib.TrimSpace GoLib.uuidParseOk ∅ Sample.groupQuery [] []
           None Sample.plainOptions 48 (Some ["keyboard"; "mouse"])
           ltac:(vm_compute; reflexivity) eq_refl eq_refl).
Defined.

Lemma offset_skips_the_pages_before_witness :
  0 <= (2 - 1) * 5
  /\ issued (ReadPaginated Sample.Count Sample.Find GoLib.Atoi
               GoLib.TrimSpace GoLib.uuidParseOk ∅ Sample.pageTwoQuery []
               None Sample.plainOptions)
     = [ExecCount [Preload "Kategori"; Order "created_at desc"];
        ExecFind [Preload "Kategori"; Order "created_at desc";
                  Limit 5; Offset ((2 - 1) * 5)]].
Proof.
  exact (offset_skips_the_pages_before Sample.Count Sample.Find GoLib.Atoi
           GoLib.TrimSpace GoLib.uuidParseOk ∅ Sample.pageTwoQuery [] []
           None Sample.plainOptions 48
           ltac:(vm_compute; reflexivity) eq_refl
           ltac:(vm_compute; discriminate)
           ltac:(vm_compute; discriminate)).
Defined.

Lemma valid_filters_reach_the_engine_witness :
  exists more,
    filterLoop GoLib.Atoi GoLib.TrimSpace GoLib.uuidParseOk
      (effectiveTypes ∅ Sample.plainOptions) Sample.validFilterQuery
      ([], false)
    = Returned ([Where "jumlah IN ?" (ArgInts [1; 2; 3]);
                 Where "status = ?" (ArgString "active")], false)
    /\ issued (ReadPaginated Sample.Count Sample.Find GoLib.Atoi
                 GoLib.TrimSpace GoLib.uuidParseOk ∅ Sample.validFilterQuery
                 [] None Sample.plainOptions)
       = ExecCount (compose GoLib.TrimSpace Sample.validFilterQuery
                      Sample.plainOptions
                      [Where "jumlah IN ?" (ArgInts [1; 2; 3]);
                       Where "status = ?" (ArgString "active")]) :: more
    /\ (exists arg, In (Where "jumlah IN ?" arg)
                      [Where "jumlah IN ?" (ArgInts [1; 2; 3]);
                       Where "status = ?" (ArgString "active")])
    /\ (exists arg, In (Where "status = ?" arg)
                      [Where "jumlah IN ?" (ArgInts [1; 2; 3]);
                       Where "status = ?" (ArgString "active")]).
Proof.
  destruct (valid_filters_reach_the_engine Sample.Count Sample.Find
              GoLib.Atoi GoLib.TrimSpace GoLib.uuidParseOk ∅
              Sample.validFilterQuery [] None Sample.plainOptions
              ltac:(filters_pass))
    as (wheres & more & Hloop & _ & Hissued & _ & Hentries).
  assert (wheres = [Where "jumlah IN ?" (ArgInts [1; 2; 3]);
                    Where "status = ?" (ArgString "active")]) as ->
    by (vm_compute in Hloop; congruence).
  exists more. split; [exact Hloop |]. split; [exact Hissued |]. split.
  - exact (Hentries "jumlah" "1, 2,3" [] ltac:(discriminate)
             ltac:(left; reflexivity)).
  - exact (Hentries "status" "active" [] ltac:(discriminate)
             ltac:(right; left; reflexivity)).
Defined.

Lemma error_comes_with_an_empty_result_witness :
  exists e,
    Some (EngineError "connection refused") = Some (EngineError e)
    /\ Data (T := string) {| Data := None; Meta := None |} = None.
Proof.
  destruct (error_comes_with_an_empty_result Outage.Count Sample.Find
              GoLib.Atoi GoLib.TrimSpace GoLib.uuidParseOk ∅
              Sample.groupQuery [] None Sample.plainOptions
              {| Data := None; Meta := None |}
              (Some (EngineError "connection refused"))
              ltac:(vm_compute; reflexivity))
    as [(Hnone & _) | [(Hinv & _) | (e & He & Hd & _)]];
    [discriminate Hnone | discriminate Hinv |].
  exists e. split; assumption.
Defined.

Lemma caller_types_take_precedence_witness :
  declaredType (effectiveTypes Outage.readmeStore Outage.readmeOptions)
    "jumlah"
  = "int"
  /\ declaredType (effectiveTypes Outage.readmeStore Outage.readmeOptions)
       "status"
     = "string".
Proof.
  split.
  - exact (proj2 (caller_types_take_precedence Outage.readmeStore
                    Outage.readmeOptions "jumlah")
             1%positive Outage.readmeTypes eq_refl eq_refl).
  - exact (proj2 (caller_types_take_precedence Outage.readmeStore
                    Outage.readmeOptions "status")
             1%positive Outage.readmeTypes eq_refl eq_refl).
Defined.

Lemma nil_types_frame_witness :
  heap_after (ReadPaginated Sample.Count Sample.Find GoLib.Atoi
                GoLib.TrimSpace GoLib.uuidParseOk Outage.readmeStore
                Sample.groupQuery [] None Sample.plainOptions) !! 1%positive
  = Outage.readmeStore !! 1%positive.
Proof.
  apply (nil_types_frame Sample.Count Sample.Find GoLib.Atoi
           GoLib.TrimSpace GoLib.uuidParseOk Outage.readmeStore
           Sample.groupQuery [] None Sample.plainOptions 1%positive).
  - reflexivity.
  - exists Outage.readmeTypes. reflexivity.
Defined.

Lemma caller_types_merged_witness :
  heap_after (ReadPaginated Sample.Count Sample.Find GoLib.Atoi
                GoLib.TrimSpace GoLib.uuidParseOk Outage.readmeStore
                Sample.groupQuery [] None Outage.readmeOptions) !! 1%positive
  = Some (Outage.readmeTypes ∪ list_to_map defaultAllowed).
Proof.
  exact (proj1 (caller_types_merged Sample.Count Sample.Find GoLib.Atoi
                  GoLib.TrimSpace GoLib.uuidParseOk Outage.readmeStore
                  Sample.groupQuery [] None Outage.readmeOptions 1%positive
                  Outage.readmeTypes eq_refl eq_refl)).
Defined.

Lemma merge_is_idempotent_witness :
  heap_after
    (ReadPaginated Sample.Count Sample.Find GoLib.Atoi GoLib.TrimSpace
       GoLib.uuidParseOk
       (heap_after (ReadPaginated Sample.Count Sample.Find GoLib.Atoi
                      GoLib.TrimSpace GoLib.uuidParseOk Outage.readmeStore
                      Sample.groupQuery [] None Outage.readmeOptions))
       Outage.statusQuery [] None Outage.readmeOptions) !! 1%positive
  = heap_after (ReadPaginated Sample.Count Sample.Find GoLib.Atoi
                  GoLib.TrimSpace GoLib.uuidParseOk Outage.readmeStore
                  Sample.groupQuery [] None Outage.readmeOptions)
    !! 1%positive.
Proof.
  exact (merge_is_idempotent Sample.Count Sample.Find GoLib.Atoi
           GoLib.TrimSpace GoLib.uuidParseOk Outage.readmeStore
           Sample.groupQuery Outage.statusQuery [] [] None None
           Outage.readmeOptions 1%positive Outage.readmeTypes
           eq_refl eq_refl).
Defined.

Lemma page_count_and_flags_witness :
  exists meta,
    paginationMeta 48 1 10 = Returned meta
    /\ (pageCount meta - 1) * 10 < 48 <= pageCount meta * 10
    /\ (hasNext meta = true <-> 1 * 10 < 48)
    /\ (hasPrev meta = true <-> 1 < 1 /\ 0 < 48).
Proof.
  apply (page_count_and_flags 48 1 10); vm_compute; discriminate.
Defined.

Lemma zero_page_size_panics_witness :
  PaginateGeneric Sample.Count Sample.Find [] None 1 0
  = ([ExecCount []; ExecFind [Limit 0; Offset 0]],
     Panicked "integer divide by zero").
Proof.
  exact (proj1 (proj1 (zero_page_size_panics Sample.Count Sample.Find []
                         None 1 0) eq_refl)
           48 (Some ["keyboard"; "mouse"]) eq_refl eq_refl).
Defined.
